(** * MaxScale filters: namedserverfilter, luafilter, and the worker messaging API

    A shallow embedding of
      - server/modules/filter/namedserverfilter/namedserverfilter.cc
      - server/modules/filter/luafilter/luafilter.c
      - the worker messaging interface declared in maxscale/worker.h

    Conventions.  C strings are [string]s (the terminating NUL is the end of
    the Rocq string).  [int] and [unsigned int] values are [Z]; where the
    source increments a counter the 32-bit wrap-around is written out.
    Pointers that may be NULL are [option]s.  Memory allocation
    (MXS_CALLOC, MXS_STRDUP_A, new) is taken to succeed.  Functions of
    libraries the modules link against (PCRE2, Lua, the MaxScale core) are
    fields of an interface class, or are modelled by their documented
    behaviour (the C library, the stack discipline of the Lua C API). *)

From Stdlib Require Import ZArith Lia Bool Ascii String List Permutation.
From stdpp Require Import base option strings gmap.
Import ListNotations.

#[local] Open Scope string_scope.
#[local] Open Scope list_scope.
#[local] Open Scope Z_scope.

(* ===================================================================== *)
(** ** C library helpers shared by the modules *)
(* ===================================================================== *)

Module CLib.

(** [isdigit] in the C locale. *)
Definition isdigit (c : ascii) : bool :=
  (48 <=? Z.of_nat (nat_of_ascii c)) && (Z.of_nat (nat_of_ascii c) <=? 57).

(** [strlen]. *)
Definition strlen (s : string) : Z := Z.of_nat (String.length s).

(** [strchr(s, c) != NULL]. *)
Fixpoint strchr (s : string) (c : ascii) : bool :=
  match s with
  | EmptyString => false
  | String d rest => if Ascii.eqb d c then true else strchr rest c
  end.

(** The tokens [strtok_r] returns when called repeatedly on [s] with the
    single delimiter [delim]: maximal runs of non-delimiter bytes; empty
    runs are skipped.  [cur] is the token being collected, reversed. *)
Fixpoint strtok_from (s : string) (delim : ascii) (cur : list ascii) : list string :=
  let flush (k : list string) :=
    match cur with
    | [] => k
    | _ :: _ => string_of_list_ascii (rev cur) :: k
    end in
  match s with
  | EmptyString => flush []
  | String c rest =>
      if Ascii.eqb c delim then flush (strtok_from rest delim [])
      else strtok_from rest delim (c :: cur)
  end.

Definition strtok_all (s : string) (delim : ascii) : list string :=
  strtok_from s delim [].

(** 32-bit two's complement wrap-around of a signed [int]. *)
Definition wrap_int (z : Z) : Z := (z + 2147483648) mod 4294967296 - 2147483648.

(** 32-bit wrap-around of an [unsigned int]. *)
Definition wrap_uint (z : Z) : Z := z mod 4294967296.

Definition INT_MAX : Z := 2147483647.

(** Number of occurrences of a byte in a string. *)
Fixpoint count_char (c : ascii) (s : string) : Z :=
  match s with
  | EmptyString => 0
  | String d rest => (if Ascii.eqb d c then 1 else 0) + count_char c rest
  end.

(** First and last byte of a string, if any. *)
Definition first_char (s : string) : option ascii :=
  match s with
  | EmptyString => None
  | String c _ => Some c
  end.

Fixpoint last_char (s : string) : option ascii :=
  match s with
  | EmptyString => None
  | String c EmptyString => Some c
  | String _ rest => last_char rest
  end.

Fixpoint all_chars (p : ascii -> bool) (s : string) : bool :=
  match s with
  | EmptyString => true
  | String c rest => p c && all_chars p rest
  end.

End CLib.

(* ===================================================================== *)
(** ** namedserverfilter.cc *)
(* ===================================================================== *)

Module NamedServerFilter.
Import CLib.

(** [INET_ADDRSTRLEN] from <netinet/in.h>. *)
Definition INET_ADDRSTRLEN : Z := 16.

(** [struct source_host]; [ipv4] is [ipv4.sin_addr.s_addr]. *)
Record REGEXHINT_SOURCE_HOST := {
  address : option string;
  ipv4 : Z;
  netmask : Z
}.

(** The "Check each byte" loop of [validate_ip_address]: [None] when a
    byte is neither a digit, a dot nor a percent sign, otherwise the
    final value of [n_dots]. *)
Fixpoint check_each_byte (host : string) (n_dots : Z) : option Z :=
  match host with
  | EmptyString => Some n_dots
  | String c rest =>
      if negb (isdigit c) && negb (Ascii.eqb c ".") && negb (Ascii.eqb c "%")
      then None
      else check_each_byte rest (if Ascii.eqb c "." then n_dots + 1 else n_dots)
  end.

Definition char_is (o : option ascii) (c : ascii) : bool :=
  match o with
  | Some d => Ascii.eqb d c
  | None => false
  end.

(** [validate_ip_address].  [host[-1]] after the loop is the last byte
    of the string; it is only read when [n_dots == 3]. *)
Definition validate_ip_address (host : string) : bool :=
  if char_is (first_char host) "%"
     || char_is (first_char host) "."
     || (INET_ADDRSTRLEN <? strlen host)
  then false
  else
    match check_each_byte host 0 with
    | None => false
    | Some n_dots =>
        if (n_dots =? 3) && negb (char_is (last_char host) ".")
        then true
        else false
    end.

(** The copying [while] loop of [set_source_address], which runs while
    bytes remain and [bytes <= 3]: the bytes written to [format_host] and the final [netmask]. *)
Fixpoint format_loop (p : string) (bytes netmask : Z) : string * Z :=
  match p with
  | EmptyString => (EmptyString, netmask)
  | String c rest =>
      if bytes <=? 3 then
        let bytes := if Ascii.eqb c "." then bytes + 1 else bytes in
        if Ascii.eqb c "%" then
          let r := format_loop rest bytes (netmask - 8) in
          (String (if bytes =? 3 then "1"%char else "0"%char) (fst r), snd r)
        else
          let r := format_loop rest bytes netmask in
          (String c (fst r), snd r)
      else (EmptyString, netmask)
  end.


(** *** Interfaces of the libraries the filter is linked against *)

(** PCRE2.  [pcre2_match code subject match_data] is the return value of
    the C function called with start offset 0 and no options: the
    highest-numbered captured group plus one (or 0) on a match,
    [PCRE2_ERROR_NOMATCH] when the subject does not match, another
    negative code on a matching error.  A NULL [match_data] is [None]. *)
Class Pcre2 := {
  pcre2_code : Type;
  pcre2_match_data : Type;
  pcre2_compile : string -> Z -> option pcre2_code;
  pcre2_match : pcre2_code -> string -> option pcre2_match_data -> Z;
  pcre2_match_data_create : Z -> option pcre2_match_data
}.

Definition PCRE2_ERROR_NOMATCH : Z := -1.
Definition PCRE2_CASELESS : Z := 8.
Definition PCRE2_EXTENDED : Z := 128.

(** [GWBUF]: the buffer contents and the head of its hint list. *)
Record GWBUF (D H : Type) := {
  data : D;
  hint : H
}.
Arguments data {D H} _.
Arguments hint {D H} _.

(** The parts of the MaxScale core the filter calls: hint.h, modutil.h,
    utils.h and config.h.  [setipaddress host] is the resolved [s_addr],
    or [None] when the C function returns 0. *)
Class MaxScaleCore := {
  GWBUF_DATA : Type;
  HINT : Type;
  HINT_TYPE : Type;
  HINT_ROUTE_TO_NAMED_SERVER : HINT_TYPE;
  hint_create_route : HINT -> HINT_TYPE -> string -> HINT;
  modutil_is_SQL : GWBUF GWBUF_DATA HINT -> bool;
  modutil_extract_SQL : GWBUF GWBUF_DATA HINT -> option string;
  setipaddress : string -> option Z;
  config_get_enum : gmap string string -> string -> list (string * Z) -> Z;
  config_get_integer : gmap string string -> string -> Z
}.

(** [config_get_string]: the value of a parameter, the empty string when
    the parameter is not set. *)
Definition config_get_string (params : gmap string string) (key : string) : string :=
  default "" (params !! key).

Definition option_values : list (string * Z) :=
  [("ignorecase", PCRE2_CASELESS); ("case", 0); ("extended", PCRE2_EXTENDED)].

Section Filter.
Context {re : Pcre2} {core : MaxScaleCore}.

Definition StringArray := list string.

(** [set_source_address] for a non-NULL [input_host].  The result is the
    allocated struct; its fields start zeroed (MXS_CALLOC). *)
Definition set_source_address (input_host : string) : option REGEXHINT_SOURCE_HOST :=
  if negb (validate_ip_address input_host) then
    Some {| address := None; ipv4 := 0; netmask := 0 |}
  else if negb (strchr input_host "%") then
    Some {| address := Some input_host; ipv4 := 0; netmask := 32 |}
  else
    let r := format_loop input_host 0 32 in
    let format_host := fst r in
    let netmask := snd r in
    match setipaddress format_host with
    | Some s_addr =>
        if negb (strlen format_host =? 0) then
          Some {| address := Some input_host;
                  ipv4 := if netmask <? 32 then Z.land s_addr 16777215 else s_addr;
                  netmask := netmask |}
        else Some {| address := None; ipv4 := s_addr; netmask := netmask |}
    | None => Some {| address := None; ipv4 := 0; netmask := netmask |}
    end.

Definition Buffer := GWBUF GWBUF_DATA HINT.

(** [MXS_DOWNSTREAM]: the downstream [routeQuery] with its instance and
    session bound; [None] while the zeroed struct has not been set. *)
Definition MXS_DOWNSTREAM := option (Buffer -> Z).

(** What the filter reads of a [MXS_SESSION]: [session_get_remote],
    [client_dcb->ipv4.sin_addr.s_addr] and [session_get_user]. *)
Record MXS_SESSION := {
  remote : option string;
  client_ipv4 : Z;
  user : option string
}.

Record RegexToServers := {
  m_match : string;
  m_regex : pcre2_code;
  m_servers : StringArray
}.

Definition MappingArray := list RegexToServers.

Record RegexHintInst := {
  m_user : string;
  m_source : option REGEXHINT_SOURCE_HOST;
  m_mapping : MappingArray;
  m_ovector_size : Z;
  m_total_diverted : Z;
  m_total_undiverted : Z
}.

Record RegexHintSess := {
  down : MXS_DOWNSTREAM;
  n_diverted : Z;
  n_undiverted : Z;
  active : Z;
  match_data : option pcre2_match_data;
  regex_error_printed : bool
}.

(** [RegexToServers::add_servers]: the number of names found and the
    entry with the names appended to [m_servers]. *)
Definition add_servers (e : RegexToServers) (server_names : string) : Z * RegexToServers :=
  let names := strtok_all server_names "," in
  (Z.of_nat (length names),
   {| m_match := m_match e; m_regex := m_regex e;
      m_servers := (m_servers e ++ names) |}).

(** [RegexHintInst::check_source_host]. *)
Definition check_source_host (src : REGEXHINT_SOURCE_HOST) (remote : string)
    (s_addr : Z) : Z :=
  let ret :=
    if netmask src =? 32 then
      match address src with
      | Some a => if String.eqb a remote then 1 else 0
      | None => 0
      end
    else 0 in
  let check :=
    if netmask src =? 24 then Z.land s_addr 16777215
    else if netmask src =? 16 then Z.land s_addr 65535
    else if netmask src =? 8 then Z.land s_addr 255
    else s_addr in
  if netmask src <? 32 then (if check =? ipv4 src then 1 else 0) else ret.

(** [RegexHintInst::newSession]. *)
Definition newSession (inst : RegexHintInst) (session : MXS_SESSION) : RegexHintSess :=
  let active0 :=
    match m_source inst with
    | Some src =>
        match address src, remote session with
        | Some _, Some r => check_source_host src r (client_ipv4 session)
        | _, _ => 1
        end
    | None => 1
    end in
  let active1 :=
    if negb (strlen (m_user inst) =? 0) then
      match user session with
      | Some u => if negb (String.eqb u (m_user inst)) then 0 else active0
      | None => active0
      end
    else active0 in
  {| down := None;
     n_diverted := 0;
     n_undiverted := 0;
     active := active1;
     match_data := pcre2_match_data_create (m_ovector_size inst);
     regex_error_printed := false |}.

Definition setDownstream (s : RegexHintSess) (downstream : Buffer -> Z) : RegexHintSess :=
  {| down := Some downstream;
     n_diverted := n_diverted s;
     n_undiverted := n_undiverted s;
     active := active s;
     match_data := match_data s;
     regex_error_printed := regex_error_printed s |}.

(** [RegexHintInst::find_servers], the loop started at the head of
    [mapping]: the return value and the contents of [servers]. *)
Fixpoint find_servers (mapping : MappingArray) (my_session : RegexHintSess)
    (servers : StringArray) (sql : string) : Z * StringArray :=
  match mapping with
  | [] => (PCRE2_ERROR_NOMATCH, servers)
  | e :: rest =>
      let result := pcre2_match (m_regex e) sql (match_data my_session) in
      if 0 <=? result then (result, m_servers e)
      else if result =? PCRE2_ERROR_NOMATCH then find_servers rest my_session servers sql
      else (result, servers)
  end.

(** The hint-adding loop of [routeQuery]. *)
Definition add_hints (h : HINT) (servers : StringArray) : HINT :=
  fold_left (fun h s => hint_create_route h HINT_ROUTE_TO_NAMED_SERVER s) servers h.

(** What one call of [routeQuery] leaves behind: the instance and session
    after the call, the buffer handed to the downstream component and the
    value returned (that of the downstream call). *)
Record Routed := {
  rq_instance : RegexHintInst;
  rq_session : RegexHintSess;
  rq_queue : Buffer;
  rq_rval : option Z
}.

Definition diverted (inst : RegexHintInst) : RegexHintInst :=
  {| m_user := m_user inst; m_source := m_source inst; m_mapping := m_mapping inst;
     m_ovector_size := m_ovector_size inst;
     m_total_diverted := wrap_uint (m_total_diverted inst + 1);
     m_total_undiverted := m_total_undiverted inst |}.

Definition undiverted (inst : RegexHintInst) : RegexHintInst :=
  {| m_user := m_user inst; m_source := m_source inst; m_mapping := m_mapping inst;
     m_ovector_size := m_ovector_size inst;
     m_total_diverted := m_total_diverted inst;
     m_total_undiverted := wrap_uint (m_total_undiverted inst + 1) |}.

(** [RegexHintInst::routeQuery]. *)
Definition routeQuery (inst : RegexHintInst) (my_session : RegexHintSess)
    (queue : Buffer) : Routed :=
  let '(inst', sess', queue') :=
    if modutil_is_SQL queue && negb (active my_session =? 0) then
      match modutil_extract_SQL queue with
      | Some sql =>
          let '(result, servers) := find_servers (m_mapping inst) my_session [] sql in
          if 0 <=? result then
            (diverted inst,
             {| down := down my_session;
                n_diverted := wrap_int (n_diverted my_session + 1);
                n_undiverted := n_undiverted my_session;
                active := active my_session;
                match_data := match_data my_session;
                regex_error_printed := regex_error_printed my_session |},
             {| data := data queue; hint := add_hints (hint queue) servers |})
          else if result =? PCRE2_ERROR_NOMATCH then
            (undiverted inst,
             {| down := down my_session;
                n_diverted := n_diverted my_session;
                n_undiverted := wrap_int (n_undiverted my_session + 1);
                active := active my_session;
                match_data := match_data my_session;
                regex_error_printed := regex_error_printed my_session |},
             queue)
          else
            (undiverted inst,
             {| down := down my_session;
                n_diverted := n_diverted my_session;
                n_undiverted := wrap_int (n_undiverted my_session + 1);
                active := active my_session;
                match_data := match_data my_session;
                regex_error_printed := true |},
             queue)
      | None => (inst, my_session, queue)
      end
    else (inst, my_session, queue) in
  {| rq_instance := inst';
     rq_session := sess';
     rq_queue := queue';
     rq_rval := match down sess' with
                | Some route => Some (route queue')
                | None => None
                end |}.

(** The state of the loop of [form_regex_server_mapping]: the mapping
    and the error flag, together with a log of the regexes
    [pcre2_compile] returned and of those handed to [pcre2_code_free]. *)
Record MappingLoop := {
  ml_mapping : MappingArray;
  ml_error : bool;
  ml_compiled : list pcre2_code;
  ml_freed : list pcre2_code
}.

(** One iteration of the loop, for the parameter names [zMatch] and
    [zServer].  ([pcre2_jit_compile] only changes how fast the compiled
    regex matches and is left out, as are the log messages.) *)
Definition mapping_loop_body (pcre_ops : Z) (params : gmap string string)
    (st : MappingLoop) (names : string * string) : MappingLoop :=
  let zMatch := fst names in
  let zServer := snd names in
  let match_ := config_get_string params zMatch in
  let servers := config_get_string params zServer in
  if (strlen match_ <? 1) || (strlen servers <? 1) then st
  else
    match pcre2_compile match_ pcre_ops with
    | Some regex =>
        let regex_ser :=
          add_servers {| m_match := match_; m_regex := regex; m_servers := [] |} servers in
        if negb (fst regex_ser =? 0) then
          {| ml_mapping := (ml_mapping st ++ [snd regex_ser]);
             ml_error := ml_error st;
             ml_compiled := (ml_compiled st ++ [regex]);
             ml_freed := ml_freed st |}
        else
          {| ml_mapping := ml_mapping st;
             ml_error := true;
             ml_compiled := (ml_compiled st ++ [regex]);
             ml_freed := (ml_freed st ++ [regex]) |}
    | None =>
        {| ml_mapping := ml_mapping st;
           ml_error := true;
           ml_compiled := ml_compiled st;
           ml_freed := ml_freed st |}
    end.

(** [form_regex_server_mapping].  The global arrays [param_names_match]
    and [param_names_server] are arguments; they have the same size
    (asserted by the source), so the loop runs over their pairs. *)
Definition form_regex_server_mapping (mapping : MappingArray) (pcre_ops : Z)
    (params : gmap string string)
    (param_names_match param_names_server : StringArray) : MappingLoop :=
  let st :=
    fold_left (mapping_loop_body pcre_ops params)
      (combine param_names_match param_names_server)
      {| ml_mapping := mapping; ml_error := false;
         ml_compiled := []; ml_freed := [] |} in
  if ml_error st then
    {| ml_mapping := [];
       ml_error := true;
       ml_compiled := ml_compiled st;
       ml_freed := (ml_freed st ++ map m_regex (ml_mapping st)) |}
  else st.

(** The result of [createInstance]: the instance (NULL is [None]) and
    the log of compiled and freed regexes. *)
Record Created := {
  cr_instance : option RegexHintInst;
  cr_compiled : list pcre2_code;
  cr_freed : list pcre2_code
}.

(** [createInstance]. *)
Definition createInstance (param_names_match param_names_server : StringArray)
    (params : gmap string string) : Created :=
  let cfg_param := config_get_string params "source" in
  let source_error :=
    if negb (strlen cfg_param =? 0) then
      match set_source_address cfg_param with
      | Some source => (Some source, false)
      | None => (None, true)
      end
    else (None, false) in
  let pcre_ops := config_get_enum params "options" option_values in
  let st :=
    form_regex_server_mapping [] pcre_ops params param_names_match param_names_server in
  if (Z.of_nat (length (ml_mapping st)) =? 0) || snd source_error then
    {| cr_instance := None;
       cr_compiled := ml_compiled st; cr_freed := ml_freed st |}
  else
    {| cr_instance :=
         Some {| m_user := config_get_string params "user";
                 m_source := fst source_error;
                 m_mapping := ml_mapping st;
                 m_ovector_size := config_get_integer params "ovector_size";
                 m_total_diverted := 0;
                 m_total_undiverted := 0 |};
       cr_compiled := ml_compiled st; cr_freed := ml_freed st |}.

End Filter.

(** *** Parameter names *)

Definition digit_char (d : Z) : ascii := ascii_of_nat (48 + Z.to_nat d).

Fixpoint decimal_go (fuel : nat) (n : Z) (acc : string) : string :=
  match fuel with
  | O => acc
  | S fuel =>
      let acc := String (digit_char (n mod 10)) acc in
      if n / 10 =? 0 then acc else decimal_go fuel (n / 10) acc
  end.

(** The "%02d" conversion of a non-negative [int]. *)
Definition format_02d (n : Z) : string :=
  let d := decimal_go 10 n "" in
  if strlen d <? 2 then String "0" d else d.

(** [snprintf(buf, namelen, "%s%02d", prefix, counter)]: at most
    [namelen - 1] bytes are stored. *)
Definition snprintf_name (namelen : Z) (prefix : string) (counter : Z) : string :=
  substring 0 (Z.to_nat (namelen - 1)) (prefix +:+ format_02d counter).

(** [generate_param_names]: the names appended to [param_names_match]
    and to [param_names_server]. *)
Definition generate_param_names (pairs : Z) : list string * list string :=
  let old (name : string) : list string := if 0 <? pairs then [name] else [] in
  let counters := map Z.of_nat (seq 1 (Z.to_nat pairs - 1)) in
  ((old "match" ++ map (snprintf_name 8 "match") counters),
   (old "server" ++ map (snprintf_name 9 "server") counters)).

End NamedServerFilter.

(* ===================================================================== *)
(** ** luafilter.c *)
(* ===================================================================== *)

Module LuaFilter.
Import CLib.

(** *** The Lua C API

    A Lua state is its stack (top first) and the rest of the interpreter
    state, [lua_Env], which is left to the runtime.  Values that the
    filter never tells apart (tables, userdata, threads) are [LOther]. *)

Inductive lua_Value (F : Type) : Type :=
  | LNil
  | LBoolean (b : bool)
  | LNumber (text : string)   (* a number, by the text lua_tostring gives *)
  | LString (s : string)
  | LFunction (f : F)
  | LOther.
Arguments LNil {F}.
Arguments LBoolean {F} b.
Arguments LNumber {F} text.
Arguments LString {F} s.
Arguments LFunction {F} f.
Arguments LOther {F}.

(** The interpreter and the MaxScale core, as far as the filter uses them.
      - [luaL_dofile path] runs a script file in a fresh state with the
        standard libraries open: the error value, or the new interpreter
        state and the values the chunk returns;
      - [lua_global env name] is the value of a global variable;
      - [lua_register env name] binds a C function to a global name;
      - [lua_apply env cur f args] calls a value in protected mode, [cur]
        being the query the exported query-classifier functions see: the
        error value, or the values returned. *)
Class LuaRuntime := {
  GWBUF : Type;
  lua_Closure : Type;
  lua_Env : Type;
  luaL_dofile : string -> lua_Value lua_Closure + lua_Env * list (lua_Value lua_Closure);
  lua_global : lua_Env -> string -> lua_Value lua_Closure;
  lua_register : lua_Env -> string -> lua_Env;
  lua_apply : lua_Env -> option GWBUF -> lua_Value lua_Closure ->
              list (lua_Value lua_Closure) ->
              lua_Env * (lua_Value lua_Closure + list (lua_Value lua_Closure));
  modutil_is_SQL : GWBUF -> bool;
  modutil_is_SQL_prepare : GWBUF -> bool;
  modutil_get_SQL : GWBUF -> option string;
  modutil_create_query : string -> GWBUF;
  modutil_create_mysql_err_msg : Z -> Z -> Z -> string -> string -> GWBUF;
  filter_standard_parameter : string -> bool
}.

Definition LUA_OK : Z := 0.
Definition LUA_ERRRUN : Z := 2.
Definition LUA_MULTRET : Z := -1.

Section Lua.
Context {rt : LuaRuntime}.

Definition Value := lua_Value lua_Closure.

Record lua_State := {
  stack : list Value;
  env : lua_Env
}.

Definition push (L : lua_State) (v : Value) : lua_State :=
  {| stack := v :: stack L; env := env L |}.

Definition lua_getglobal (L : lua_State) (name : string) : lua_State :=
  push L (lua_global (env L) name).

Definition lua_pushlstring (L : lua_State) (s : string) : lua_State :=
  push L (LString s).

(** [lua_pushcclosure] followed by [lua_setglobal], and the
    [lua_pushlightuserdata] before them: the stack is as before. *)
Definition lua_setglobal_c (L : lua_State) (name : string) : lua_State :=
  {| stack := stack L; env := lua_register (env L) name |}.

Definition lua_gettop (L : lua_State) : Z := Z.of_nat (length (stack L)).

(** [lua_settop(L, 0)], which is what [lua_pop(L, -1)] expands to. *)
Definition lua_pop_minus1 (L : lua_State) : lua_State :=
  {| stack := []; env := env L |}.

(** The value at index -1; reading an empty stack gives no value. *)
Definition top (L : lua_State) : option Value := head (stack L).

Definition lua_isstring (L : lua_State) : bool :=
  match top L with
  | Some (LString _) | Some (LNumber _) => true
  | _ => false
  end.

Definition lua_isboolean (L : lua_State) : bool :=
  match top L with
  | Some (LBoolean _) => true
  | _ => false
  end.

Definition lua_toboolean (L : lua_State) : bool :=
  match top L with
  | Some (LBoolean false) | Some LNil | None => false
  | Some _ => true
  end.

(** The text of a string or number value. *)
Definition value_text (v : Value) : option string :=
  match v with
  | LString s => Some s
  | LNumber t => Some t
  | _ => None
  end.

(** [lua_tostring(L, -1)]: NULL unless the value is a string or a number;
    a number is converted to a string in the stack. *)
Definition lua_tostring (L : lua_State) : option string * lua_State :=
  match stack L with
  | LString s :: _ => (Some s, L)
  | LNumber t :: rest => (Some t, {| stack := LString t :: rest; env := env L |})
  | _ => (None, L)
  end.

(** The results of a call adjusted to [nresults] values. *)
Definition adjust (nresults : Z) (rets : list Value) : list Value :=
  if nresults =? LUA_MULTRET then rets
  else firstn (Z.to_nat nresults) (rets ++ repeat LNil (Z.to_nat nresults)).

(** [lua_pcall(L, nargs, nresults, 0)] with the function and its [nargs]
    arguments on top of the stack; [cur] is the query visible to the
    exported C functions during the call. *)
Definition lua_pcall (cur : option GWBUF) (L : lua_State) (nargs nresults : Z)
    : Z * lua_State :=
  let n := Z.to_nat nargs in
  let args := rev (firstn n (stack L)) in
  let f := nth n (stack L) LNil in
  let below := skipn (S n) (stack L) in
  match lua_apply (env L) cur f args with
  | (env', inl err) => (LUA_ERRRUN, {| stack := err :: below; env := env' |})
  | (env', inr rets) =>
      (LUA_OK, {| stack := (rev (adjust nresults rets) ++ below); env := env' |})
  end.

(** *** The filter *)

Record LUA_INSTANCE := {
  global_lua_state : option lua_State;
  global_script : option string;
  session_script : option string
}.

(** [LUA_SESSION]; of the MaxScale session it keeps what [routeQuery]
    uses, the write function of the client DCB. *)
Record LUA_SESSION := {
  client_write : GWBUF -> Z;
  lua_state : option lua_State;
  current_query : option GWBUF;
  down : option (GWBUF -> Z);
  up : option (GWBUF -> Z)
}.

(** What a call does besides changing the instance and the session. *)
Inductive Event :=
  | Log (text : option string)       (* MXS_ERROR / MXS_WARNING with the Lua message *)
  | Free (b : GWBUF)                 (* gwbuf_free *)
  | ClientWrite (b : GWBUF)          (* dcb->func.write(dcb, b) *)
  | RouteDown (b : GWBUF)            (* down.routeQuery(..., b) *)
  | Printf (text : string).          (* dcb_printf *)

Definition is_log (e : Event) : Prop :=
  match e with
  | Log _ => True
  | _ => False
  end.

(** The block both halves of [routeQuery] run after a successful
    [lua_pcall]: the value on top of the stack, if there is one, replaces
    the query or decides the routing. *)
Record Verdict := {
  route : bool;
  forward : GWBUF;
  events : list Event
}.

Definition interpret_top (L : lua_State) (d : Verdict) : Verdict * lua_State :=
  if negb (lua_gettop L =? 0) then
    if lua_isstring L then
      let r := lua_tostring L in
      (* modutil_create_query is handed the text; NULL cannot occur here *)
      ({| route := route d;
          forward := modutil_create_query (default "" (fst r));
          events := (events d ++ [Free (forward d)]) |}, snd r)
    else if lua_isboolean L then
      ({| route := lua_toboolean L; forward := forward d; events := events d |}, L)
    else (d, L)
  else (d, L).

(** A failed [lua_pcall]: the message is logged and the stack emptied. *)
Definition log_and_clear (L : lua_State) (d : Verdict) : Verdict * lua_State :=
  let r := lua_tostring L in
  ({| route := route d; forward := forward d;
      events := (events d ++ [Log (fst r)]) |},
   lua_pop_minus1 (snd r)).

Record Outcome := {
  out_instance : LUA_INSTANCE;
  out_session : LUA_SESSION;
  out_events : list Event;
  out_rc : option Z
}.

Definition with_global (i : LUA_INSTANCE) (G : option lua_State) : LUA_INSTANCE :=
  {| global_lua_state := G;
     global_script := global_script i;
     session_script := session_script i |}.

(** The session after its script ran: [current_query] has been reset. *)
Definition with_lua_state (s : LUA_SESSION) (L : lua_State) : LUA_SESSION :=
  {| client_write := client_write s;
     lua_state := Some L;
     current_query := None;
     down := down s;
     up := up s |}.

(** [routeQuery].  The result is [None] where the source passes a NULL
    [fullquery] to [strlen]. *)
Definition routeQuery (my_instance : LUA_INSTANCE) (my_session : LUA_SESSION)
    (queue : GWBUF) : option Outcome :=
  let d0 := {| route := true; forward := queue; events := [] |} in
  let after_scripts : option (Verdict * LUA_SESSION * option lua_State) :=
    if modutil_is_SQL queue || modutil_is_SQL_prepare queue then
      let fullquery := modutil_get_SQL queue in
      let sess_part :=
        match fullquery, lua_state my_session with
        | Some fq, Some L =>
            let L := lua_pushlstring (lua_getglobal L "routeQuery") fq in
            let r := lua_pcall (Some queue) L 1 1 in
            let r' :=
              if negb (fst r =? LUA_OK) then log_and_clear (snd r) d0
              else interpret_top (snd r) d0 in
            (fst r', with_lua_state my_session (snd r'))
        | _, _ => (d0, my_session)
        end in
      match global_lua_state my_instance with
      | Some G =>
          match fullquery with
          | Some fq =>
              let G := lua_pushlstring (lua_getglobal G "routeQuery") fq in
              let r := lua_pcall (Some queue) G 1 0 in
              let r' :=
                if negb (fst r =? LUA_OK) then log_and_clear (snd r) (fst sess_part)
                else interpret_top (snd r) (fst sess_part) in
              Some (fst r', snd sess_part, Some (snd r'))
          | None => None
          end
      | None => Some (fst sess_part, snd sess_part, None)
      end
    else Some (d0, my_session, global_lua_state my_instance) in
  match after_scripts with
  | None => None
  | Some (d, sess, G) =>
      let inst := with_global my_instance G in
      if negb (route d) then
        let err := modutil_create_mysql_err_msg 1 0 1045 "28000" "Access denied." in
        Some {| out_instance := inst; out_session := sess;
                out_events := (events d ++ [Free queue; ClientWrite err]);
                out_rc := Some (client_write my_session err) |}
      else
        Some {| out_instance := inst; out_session := sess;
                out_events := (events d ++ [RouteDown (forward d)]);
                out_rc := match down my_session with
                          | Some f => Some (f (forward d))
                          | None => None
                          end |}
  end.

(** [diagnostic] for a non-NULL instance: the text printed to the DCB
    is in the events. *)
Definition diagnostic (my_instance : LUA_INSTANCE) : LUA_INSTANCE * list Event :=
  let scripts :=
    (match global_script my_instance with
     | Some g => [Printf ("Global script: " +:+ g)]
     | None => []
     end ++
     match session_script my_instance with
     | Some g => [Printf ("Session script: " +:+ g)]
     | None => []
     end) in
  match global_lua_state my_instance with
  | Some G =>
      let G := lua_getglobal G "diagnostic" in
      let r := lua_pcall None G 0 1 in
      if fst r =? 0 then
        if lua_isstring (snd r) then
          let t := lua_tostring (snd r) in
          (with_global my_instance (Some (snd t)),
           (Printf (default "" (fst t)) :: scripts))
        else (with_global my_instance (Some (snd r)), scripts)
      else
        let t := lua_tostring (snd r) in
        (with_global my_instance (Some (lua_pop_minus1 (snd t))),
         (Printf ("Global scope call to 'diagnostic' failed: '"
                  +:+ default "(null)" (fst t) +:+ "'.") :: scripts))
  | None => (my_instance, scripts)
  end.

Record FILTER_PARAMETER := {
  name : string;
  value : string
}.

(** The parameter loop of [createInstance]: the two script paths, or
    [None] when a parameter is not known. *)
Fixpoint read_params (params : list FILTER_PARAMETER) (g s : option string)
    : option (option string * option string) :=
  match params with
  | [] => Some (g, s)
  | p :: rest =>
      if String.eqb (name p) "global_script" then read_params rest (Some (value p)) s
      else if String.eqb (name p) "session_script" then read_params rest g (Some (value p))
      else if negb (filter_standard_parameter (name p)) then None
      else read_params rest g s
  end.

(** Calling an entry point that returns nothing: on failure the message
    is logged and the stack emptied. *)
Definition call_entry_point (L : lua_State) (entry : string) : lua_State * list Event :=
  let r := lua_pcall None (lua_getglobal L entry) 0 0 in
  if negb (fst r =? LUA_OK) then
    let t := lua_tostring (snd r) in
    (lua_pop_minus1 (snd t), [Log (fst t)])
  else (snd r, []).

(** [createInstance]; [luaL_newstate] is taken to succeed. *)
Definition createInstance (params : list FILTER_PARAMETER)
    : option LUA_INSTANCE * list Event :=
  match read_params params None None with
  | None => (None, [])
  | Some (g, s) =>
      match g with
      | Some script =>
          match luaL_dofile script with
          | inl err => (None, [Log (value_text err)])
          | inr (e, rets) =>
              let r := call_entry_point {| stack := rev rets; env := e |} "createInstance" in
              let L := lua_setglobal_c (lua_setglobal_c (fst r) "lua_qc_get_type")
                         "lua_qc_get_operation" in
              (Some {| global_lua_state := Some L;
                       global_script := g; session_script := s |}, snd r)
          end
      | None =>
          (Some {| global_lua_state := None;
                   global_script := g; session_script := s |}, [])
      end
  end.

(** [newSession]: the instance (its global state is called), the new
    session (NULL is [None]) and the messages logged.  [write] is the
    write function of the client DCB of the MaxScale session. *)
Definition newSession (my_instance : LUA_INSTANCE) (write : GWBUF -> Z)
    : LUA_INSTANCE * option LUA_SESSION * list Event :=
  let mk (L : option lua_State) :=
    {| client_write := write; lua_state := L; current_query := None;
       down := None; up := None |} in
  let own : option LUA_SESSION * list Event :=
    match session_script my_instance with
    | Some script =>
        match luaL_dofile script with
        | inl err => (None, [Log (value_text err)])
        | inr (e, rets) =>
            let L := {| stack := rev rets; env := e |} in
            let L := lua_setglobal_c L "id_gen" in
            let L := lua_setglobal_c (lua_setglobal_c L "lua_qc_get_type")
                       "lua_qc_get_operation" in
            let r := call_entry_point L "newSession" in
            (Some (mk (Some (fst r))), snd r)
        end
    | None => (Some (mk None), [])
    end in
  match fst own, global_lua_state my_instance with
  | Some _, Some G =>
      let r := call_entry_point G "newSession" in
      (with_global my_instance (Some (fst r)), fst own, (snd own ++ snd r))
  | _, _ => (my_instance, fst own, snd own)
  end.

Definition setDownstream (s : LUA_SESSION) (downstream : GWBUF -> Z) : LUA_SESSION :=
  {| client_write := client_write s; lua_state := lua_state s;
     current_query := current_query s; down := Some downstream; up := up s |}.

End Lua.

End LuaFilter.

(* ===================================================================== *)
(** ** The worker messaging API (maxscale/worker.h) *)
(* ===================================================================== *)

Module Worker.

(** [enum mxs_worker_msg_id]. *)
Inductive mxs_worker_msg_id :=
  | MXS_WORKER_MSG_PING
  | MXS_WORKER_MSG_SHUTDOWN
  | MXS_WORKER_MSG_CALL.

(** The fixed-size record [{id, arg1, arg2}] sent through the channel. *)
Record WORKER_MESSAGE := {
  msg_id : mxs_worker_msg_id;
  arg1 : Z;
  arg2 : Z
}.

(** Modelled from the spec: the message channel between [write_fd] and
    [read_fd], whose implementation is not part of the sources at hand.
    It is a bounded FIFO of complete records; [writes] counts the write
    operations issued on its writing end.  Under a channel-protocol bug
    something that is not a whole record can lie among the records:
    [torn] is then the number of records in front of it. *)
Record Channel := {
  records : list WORKER_MESSAGE;
  capacity : nat;
  closed : bool;
  writes : nat;
  torn : option nat
}.

(** [MXS_WORKER], with the pair of descriptors replaced by the channel
    they are the two ends of; the poll data and the thread handle play
    no part in the properties below. *)
Record MXS_WORKER := {
  id : Z;
  channel : Channel;
  started : bool;
  should_shutdown : bool;
  shutdown_initiated : bool
}.

(** Modelled from the spec: the single bounded, non-blocking write of one
    record.  It either appends the whole record or, when the channel is
    full or closed, fails at once and leaves the contents as they were. *)
Definition channel_write (c : Channel) (m : WORKER_MESSAGE) : bool * Channel :=
  let ok := negb (closed c) && (length (records c) <? capacity c)%nat in
  (ok,
   {| records := if ok then (records c ++ [m]) else records c;
      capacity := capacity c;
      closed := closed c;
      writes := S (writes c);
      torn := torn c |}).

(** Modelled from the spec: a channel-protocol bug, the write of
    something that is not a whole record behind the records that are in
    the channel.  The first such write is the one the reader meets. *)
Definition channel_garble (c : Channel) : Channel :=
  {| records := records c;
     capacity := capacity c;
     closed := closed c;
     writes := S (writes c);
     torn := match torn c with
             | Some n => Some n
             | None => Some (length (records c))
             end |}.

Definition with_channel (w : MXS_WORKER) (c : Channel) : MXS_WORKER :=
  {| id := id w; channel := c; started := started w;
     should_shutdown := should_shutdown w;
     shutdown_initiated := shutdown_initiated w |}.

(** Modelled from the spec: [mxs_worker_post_message], of which only the
    declaration is at hand.  One record is built from the arguments and
    written to the channel once; the result tells whether it was
    written. *)
Definition mxs_worker_post_message (w : MXS_WORKER) (msg : mxs_worker_msg_id)
    (a1 a2 : Z) : bool * MXS_WORKER :=
  let r := channel_write (channel w) {| msg_id := msg; arg1 := a1; arg2 := a2 |} in
  (fst r, with_channel w (snd r)).

(** Modelled from the spec: the loop of [mxs_worker_broadcast_message]
    over the workers of the registry, counting the successful posts
    from [n]. *)
Fixpoint broadcast_from (workers : list MXS_WORKER) (msg : mxs_worker_msg_id)
    (a1 a2 : Z) (n : Z) : Z * list MXS_WORKER :=
  match workers with
  | [] => (n, [])
  | w :: rest =>
      let r := mxs_worker_post_message w msg a1 a2 in
      let k := broadcast_from rest msg a1 a2 (if fst r then n + 1 else n) in
      (fst k, snd r :: snd k)
  end.

(** Modelled from the spec: [mxs_worker_broadcast_message], of which only
    the declaration is at hand; the registry of workers is an argument. *)
Definition mxs_worker_broadcast_message (workers : list MXS_WORKER)
    (msg : mxs_worker_msg_id) (a1 a2 : Z) : Z * list MXS_WORKER :=
  broadcast_from workers msg a1 a2 0.

(** Modelled from the spec: a worker as the registry creates it, with an
    open and empty channel of the given capacity. *)
Definition mxs_worker_create (worker_id : Z) (cap : nat) : MXS_WORKER :=
  {| id := worker_id;
     channel := {| records := []; capacity := cap; closed := false; writes := 0;
                   torn := None |};
     started := false;
     should_shutdown := false;
     shutdown_initiated := false |}.

(** Modelled from the spec: the dispatch of one drained record by its
    id.  SHUTDOWN sets [should_shutdown]; what the PING and CALL handlers
    do lies outside the worker's own state. *)
Definition dispatch (w : MXS_WORKER) (m : WORKER_MESSAGE) : MXS_WORKER :=
  match msg_id m with
  | MXS_WORKER_MSG_SHUTDOWN =>
      {| id := id w; channel := channel w; started := started w;
         should_shutdown := true;
         shutdown_initiated := shutdown_initiated w |}
  | MXS_WORKER_MSG_PING | MXS_WORKER_MSG_CALL => w
  end.

(** Modelled from the spec: the thread of a worker running the event
    loop.  [batch] holds the records drained from the channel and not
    yet dispatched, [dispatched] the records dispatched so far, oldest
    first; [malformed] is set when the loop has read something that is
    not a whole record; [exited] is set when the loop has been left and
    the thread can be joined. *)
Record WorkerThread := {
  worker : MXS_WORKER;
  batch : list WORKER_MESSAGE;
  dispatched : list WORKER_MESSAGE;
  malformed : bool;
  exited : bool
}.

(** Modelled from the spec: [should_shutdown] set from outside, which
    the state machine of the worker allows before the start. *)
Definition set_should_shutdown (w : MXS_WORKER) : MXS_WORKER :=
  {| id := id w; channel := channel w; started := started w;
     should_shutdown := true;
     shutdown_initiated := shutdown_initiated w |}.

(** Modelled from the spec: the start of the worker's thread, which
    enters the loop with nothing drained and nothing dispatched. *)
Definition mxs_worker_start (w : MXS_WORKER) : WorkerThread :=
  {| worker := {| id := id w; channel := channel w; started := true;
                  should_shutdown := should_shutdown w;
                  shutdown_initiated := shutdown_initiated w |};
     batch := [];
     dispatched := [];
     malformed := false;
     exited := false |}.

(** Modelled from the spec: one step of the event loop.  A drained record
    is dispatched if there is one; otherwise the loop is at its head.
    There it is left if [should_shutdown] is set, or if the last read
    met something that was not a whole record, which is fatal to the
    worker.  Otherwise it waits on the channel and drains the complete
    records that are there, in arrival order, up to the place where the
    channel is torn, if it is: what lies behind that place is never
    read. *)
Definition worker_step (t : WorkerThread) : WorkerThread :=
  if exited t then t
  else
    match batch t with
    | m :: rest =>
        {| worker := dispatch (worker t) m;
           batch := rest;
           dispatched := (dispatched t ++ [m]);
           malformed := malformed t;
           exited := false |}
    | [] =>
        if should_shutdown (worker t) || malformed t then
          {| worker := worker t; batch := []; dispatched := dispatched t;
             malformed := malformed t;
             exited := true |}
        else
          match torn (channel (worker t)) with
          | None =>
              {| worker :=
                   with_channel (worker t)
                     {| records := [];
                        capacity := capacity (channel (worker t));
                        closed := closed (channel (worker t));
                        writes := writes (channel (worker t));
                        torn := None |};
                 batch := records (channel (worker t));
                 dispatched := dispatched t;
                 malformed := malformed t;
                 exited := false |}
          | Some n =>
              {| worker :=
                   with_channel (worker t)
                     {| records := skipn n (records (channel (worker t)));
                        capacity := capacity (channel (worker t));
                        closed := closed (channel (worker t));
                        writes := writes (channel (worker t));
                        torn := Some 0%nat |};
                 batch := firstn n (records (channel (worker t)));
                 dispatched := dispatched t;
                 malformed := true;
                 exited := false |}
          end
    end.

(** *** Posting threads and one worker, interleaved *)

Definition thread_id := nat.

(** What happens next: a thread posts a message to the worker, or the
    worker's own thread takes a step of its loop, or, under a
    channel-protocol bug, something that is not a whole record is
    written to the worker's channel. *)
Inductive Action :=
  | Post (from : thread_id) (m : WORKER_MESSAGE)
  | Step
  | Garble.

(** Modelled from the spec: the concurrent execution, which the sources
    at hand do not contain, as an interleaving of atomic posts and loop
    steps.  The state is the worker thread together with the posts that
    returned true so far, each with the thread that made it, in the
    order they were made. *)
Record System := {
  wt : WorkerThread;
  sent : list (thread_id * WORKER_MESSAGE)
}.

Definition act (s : System) (a : Action) : System :=
  match a with
  | Post from m =>
      let r := mxs_worker_post_message (worker (wt s)) (msg_id m) (arg1 m) (arg2 m) in
      {| wt := {| worker := snd r; batch := batch (wt s);
                  dispatched := dispatched (wt s);
                  malformed := malformed (wt s); exited := exited (wt s) |};
         sent := if fst r then (sent s ++ [(from, m)]) else sent s |}
  | Step => {| wt := worker_step (wt s); sent := sent s |}
  | Garble =>
      {| wt := {| worker := with_channel (worker (wt s))
                              (channel_garble (channel (worker (wt s))));
                  batch := batch (wt s);
                  dispatched := dispatched (wt s);
                  malformed := malformed (wt s); exited := exited (wt s) |};
         sent := sent s |}
  end.

Definition run (s : System) (schedule : list Action) : System :=
  fold_left act schedule s.

(** A worker created by the registry and started, before any post. *)
Definition boot (worker_id : Z) (cap : nat) : System :=
  {| wt := mxs_worker_start (mxs_worker_create worker_id cap); sent := [] |}.

(** Any worker started, before any post counted. *)
Definition boot_worker (w : MXS_WORKER) : System :=
  {| wt := mxs_worker_start w; sent := [] |}.

(** The messages of one thread in a list of tagged messages. *)
Definition posts_of (t : thread_id) (l : list (thread_id * WORKER_MESSAGE))
    : list WORKER_MESSAGE :=
  map snd (List.filter (fun p => Nat.eqb (fst p) t) l).

(** The messages a thread tries to post in a schedule, in program order. *)
Fixpoint program_of (t : thread_id) (schedule : list Action) : list WORKER_MESSAGE :=
  match schedule with
  | [] => []
  | Post from m :: rest =>
      if Nat.eqb from t then m :: program_of t rest else program_of t rest
  | Step :: rest => program_of t rest
  | Garble :: rest => program_of t rest
  end.

Definition steps_in (schedule : list Action) : nat :=
  length (List.filter (fun a => match a with Step => true | _ => false end) schedule).

(** Everything accepted so far has been dispatched, or waits in the
    batch, or waits in the channel, in the order it was accepted. *)
Definition fifo (s : System) : Prop :=
  map snd (sent s) =
  dispatched (wt s) ++ batch (wt s) ++ records (channel (worker (wt s))).

Definition is_shutdown (m : WORKER_MESSAGE) : bool :=
  match msg_id m with
  | MXS_WORKER_MSG_SHUTDOWN => true
  | _ => false
  end.

End Worker.

(* ===================================================================== *)
(** ** Vocabulary of the properties, and small concrete configurations *)
(* ===================================================================== *)

Module Shapes.
Import CLib NamedServerFilter.

(** The bytes a 'source' host may consist of. *)
Definition host_char (c : ascii) : bool :=
  isdigit c || Ascii.eqb c "." || Ascii.eqb c "%".

(** The shape of an acceptable 'source' host: exactly three dots, no
    leading percent sign or dot, no trailing dot, at most
    [INET_ADDRSTRLEN] bytes, and only digits, dots and percent signs. *)
Definition source_shape (host : string) : Prop :=
  count_char "." host = 3 /\
  first_char host <> Some "%"%char /\
  first_char host <> Some "."%char /\
  last_char host <> Some "."%char /\
  strlen host <= INET_ADDRSTRLEN /\
  all_chars host_char host = true.

Section FilterShapes.
Context {re : Pcre2} {core : MaxScaleCore}.

(** The regex of a mapping entry matches the statement text. *)
Definition entry_matches (sess : RegexHintSess) (sql : string) (e : RegexToServers) : bool :=
  0 <=? pcre2_match (m_regex e) sql (match_data sess).

(** Matching the entry's regex ends the search: the result is a match or
    a matching error, anything but "no match". *)
Definition entry_decides (sess : RegexHintSess) (sql : string) (e : RegexToServers) : bool :=
  negb (pcre2_match (m_regex e) sql (match_data sess) =? PCRE2_ERROR_NOMATCH).

(** The first entry of the mapping, in order, whose regex matches. *)
Definition first_matching (mapping : MappingArray) (sess : RegexHintSess)
    (sql : string) : option RegexToServers :=
  List.find (entry_matches sess sql) mapping.

(** The first entry of the mapping, in order, that ends the search. *)
Definition first_deciding (mapping : MappingArray) (sess : RegexHintSess)
    (sql : string) : option RegexToServers :=
  List.find (entry_decides sess sql) mapping.

(** The buffer holds an SQL statement whose text can be extracted. *)
Definition is_statement (q : Buffer) : bool :=
  modutil_is_SQL q &&
  match modutil_extract_SQL q with Some _ => true | None => false end.

(** The number of SQL statements among the buffers. *)
Definition statements (qs : list Buffer) : Z :=
  Z.of_nat (length (List.filter is_statement qs)).

(** [routeQuery] called for each buffer of a list in turn, on the same
    instance and session. *)
Fixpoint route_all (inst : RegexHintInst) (sess : RegexHintSess) (qs : list Buffer)
    : RegexHintInst * RegexHintSess :=
  match qs with
  | [] => (inst, sess)
  | q :: rest =>
      let r := routeQuery inst sess q in
      route_all (rq_instance r) (rq_session r) rest
  end.

(** Both parameters of a match/server pair are set. *)
Definition configured (params : gmap string string) (names : string * string) : bool :=
  (0 <? strlen (config_get_string params (fst names))) &&
  (0 <? strlen (config_get_string params (snd names))).

(** A configured pair whose regex does not compile or whose server list
    holds no name. *)
Definition pair_fails (pcre_ops : Z) (params : gmap string string)
    (names : string * string) : bool :=
  configured params names &&
  (match pcre2_compile (config_get_string params (fst names)) pcre_ops with
   | Some _ => false
   | None => true
   end
   || match strtok_all (config_get_string params (snd names)) "," with
      | [] => true
      | _ :: _ => false
      end).

(** The mapping entry [e] is the one the pair [names] asks for. *)
Definition entry_for (pcre_ops : Z) (params : gmap string string)
    (names : string * string) (e : RegexToServers) : Prop :=
  m_match e = config_get_string params (fst names) /\
  pcre2_compile (m_match e) pcre_ops = Some (m_regex e) /\
  m_servers e = strtok_all (config_get_string params (snd names)) "," /\
  m_servers e <> [].

End FilterShapes.

End Shapes.

Module Demo.
Import CLib NamedServerFilter.

(** Does [s] start with [p]; does [s] contain [p]. *)
Fixpoint starts_with (p s : string) : bool :=
  match p, s with
  | EmptyString, _ => true
  | String a p', String b s' => Ascii.eqb a b && starts_with p' s'
  | String _ _, EmptyString => false
  end.

Fixpoint contains (p s : string) : bool :=
  starts_with p s ||
  match s with
  | EmptyString => false
  | String _ s' => contains p s'
  end.

(** What matching the nested quantifier [(a+)+$] comes to; [run] is the
    length of the run of a's that ends where the scan stands.  A run
    that reaches the end of the subject, or the line end that closes the
    subject, matches.  A run followed by any other byte cannot match,
    and the matcher tries every way of splitting it into groups before
    it moves on: for a run of 32 bytes or more these are over 2^31
    attempts, far beyond the limit of 10 000 000 the library is built
    with, and the match is abandoned with PCRE2_ERROR_MATCHLIMIT (-47).
    A shorter run is taken to be given up within the limit, and the scan
    goes on behind it. *)
Fixpoint nested_plus (run : nat) (subject : string) : Z :=
  match subject with
  | EmptyString => if (0 <? run)%nat then 1 else PCRE2_ERROR_NOMATCH
  | String c rest =>
      if Ascii.eqb c "a" then nested_plus (S run) rest
      else if (0 <? run)%nat && Ascii.eqb c (ascii_of_nat 10) && String.eqb rest ""
      then 1
      else if (32 <=? run)%nat then -47
      else nested_plus 0 rest
  end.

(** A toy regex library: a pattern is compiled unless it is an unbalanced
    parenthesis; a compiled pattern matches the subjects that contain it
    literally, except for the nested quantifier [(a+)+$], which is
    matched as [nested_plus] tells.  A match is reported as 1. *)
Definition toy_pcre2 : Pcre2 :=
  {| pcre2_code := string;
     pcre2_match_data := unit;
     pcre2_compile := fun pattern _ =>
       if String.eqb pattern "(" then None else Some pattern;
     pcre2_match := fun code subject _ =>
       if String.eqb code "(a+)+$" then nested_plus 0 subject
       else if contains code subject then 1 else PCRE2_ERROR_NOMATCH;
     pcre2_match_data_create := fun _ => Some tt |}.

(** A toy core: a buffer holds the text of a COM_QUERY packet or is some
    other packet; the hint list is the list of hints added, newest
    first; only the address 10.0.0.1 resolves. *)
Definition toy_core : MaxScaleCore :=
  {| GWBUF_DATA := option string;
     HINT := list (bool * string);
     HINT_TYPE := bool;
     HINT_ROUTE_TO_NAMED_SERVER := true;
     hint_create_route := fun head type name => (type, name) :: head;
     modutil_is_SQL := fun b => match data b with Some _ => true | None => false end;
     modutil_extract_SQL := fun b => data b;
     setipaddress := fun host =>
       if String.eqb host "10.0.0.1" then Some 16777226 else None;
     config_get_enum := fun _ _ _ => PCRE2_CASELESS;
     config_get_integer := fun _ _ => 1 |}.

#[local] Existing Instance toy_pcre2.
#[local] Existing Instance toy_core.

Definition entry (pattern : string) (servers : list string) : RegexToServers :=
  {| m_match := pattern; m_regex := pattern; m_servers := servers |}.

Definition instance_of (mapping : MappingArray) : RegexHintInst :=
  {| m_user := ""; m_source := None; m_mapping := mapping; m_ovector_size := 1;
     m_total_diverted := 0; m_total_undiverted := 0 |}.

(** Two entries, the first of which matches INSERT statements. *)
Definition plain_instance : RegexHintInst :=
  instance_of [entry "insert" ["server1"]; entry "select" ["server2"; "server3"]].

(** Two entries, the first of which cannot be matched within the limit
    when the statement holds a long run of a's. *)
Definition costly_instance : RegexHintInst :=
  instance_of [entry "(a+)+$" ["server1"]; entry "select" ["server2"; "server3"]].

(** A SELECT with a string of forty a's in it. *)
Definition costly_sql : string :=
  "select 'aaaaaaaaaaaaaaaaaaaaaaaaaaaaaaaaaaaaaaaa' from t".

Definition client : MXS_SESSION :=
  {| remote := Some "10.0.0.7"; client_ipv4 := 117440522; user := Some "app" |}.

(** A downstream component that returns 1. *)
Definition router : Buffer -> Z := fun _ => 1.

Definition session_of (inst : RegexHintInst) : RegexHintSess :=
  setDownstream (newSession inst client) router.

Definition query (sql : string) : Buffer := {| data := Some sql; hint := [] |}.

(** A packet that is not a COM_QUERY. *)
Definition ping : Buffer := {| data := None; hint := [] |}.

Definition good_params : gmap string string :=
  {[ "match" := "insert"; "server" := "server1";
     "match01" := "select"; "server01" := "server2,server3" ]}.

Definition bad_params : gmap string string :=
  {[ "match" := "insert"; "server" := "server1";
     "match01" := "("; "server01" := "server2,server3" ]}.

End Demo.

Module LuaDemo.
Import CLib LuaFilter.

(** Packets: a COM_QUERY with its text, an error packet with its
    message, anything else. *)
Inductive packet :=
  | Query (sql : string)
  | Error (message : string)
  | Other.

Definition defines (names : list string) (name : string) : bool :=
  existsb (String.eqb name) names.

(** A toy interpreter.  Its state is the path of the script that was
    run.  The script global.lua defines createInstance, newSession,
    routeQuery, clientReply and closeSession, which return nothing, and
    diagnostic, which returns a line of text; session.lua defines
    routeQuery, which returns false for a statement that contains the
    word drop and nothing otherwise.  Calling anything but a function is
    an error. *)
Definition toy_lua : LuaRuntime :=
  {| GWBUF := packet;
     lua_Closure := string;
     lua_Env := string;
     luaL_dofile := fun path => inr (path, []);
     lua_global := fun env name =>
       if String.eqb env "global.lua" then
         if defines ["createInstance"; "newSession"; "routeQuery"; "clientReply";
                     "closeSession"; "diagnostic"] name
         then LFunction name else LNil
       else if String.eqb name "routeQuery" then LFunction name else LNil;
     lua_register := fun env _ => env;
     lua_apply := fun env _ f args =>
       match f with
       | LFunction name =>
           if String.eqb name "diagnostic" then (env, inr [LString "luafilter: all is well"])
           else if String.eqb env "session.lua" then
             match args with
             | [LString q] =>
                 if Demo.contains "drop" q then (env, inr [LBoolean false])
                 else (env, inr [])
             | _ => (env, inr [])
             end
           else (env, inr [])
       | _ => (env, inl (LString "attempt to call a nil value"))
       end;
     modutil_is_SQL := fun b => match b with Query _ => true | _ => false end;
     modutil_is_SQL_prepare := fun _ => false;
     modutil_get_SQL := fun b => match b with Query sql => Some sql | _ => None end;
     modutil_create_query := Query;
     modutil_create_mysql_err_msg := fun _ _ _ _ message => Error message;
     filter_standard_parameter := fun name => String.eqb name "type" |}.

#[local] Existing Instance toy_lua.

Definition both_scripts : list FILTER_PARAMETER :=
  [ {| name := "global_script"; value := "global.lua" |};
    {| name := "session_script"; value := "session.lua" |} ].

(** The instance [createInstance] returns, and none if it returns NULL. *)
Definition created : option LUA_INSTANCE := fst (createInstance both_scripts).

(** A new session of an instance, with a downstream that returns 1: the
    instance after the call and the session. *)
Definition opened (inst : LUA_INSTANCE) : LUA_INSTANCE * option LUA_SESSION :=
  let r := newSession inst (fun _ => 1) in
  (fst (fst r),
   match snd (fst r) with
   | Some s => Some (setDownstream s (fun _ => 1))
   | None => None
   end).

End LuaDemo.

(* ===================================================================== *)
(** ** namedserverfilter.cc: destruction, diagnostics, module parameters *)
(* ===================================================================== *)

Module NamedServerFilterMore.
Import CLib NamedServerFilter.

(** Names written one after the other with a delimiter in between. *)
Fixpoint join (delim : ascii) (names : list string) : string :=
  match names with
  | [] => ""
  | [name] => name
  | name :: rest => name +:+ String delim (join delim rest)
  end.

(** A name as [strtok_r] can return it: not empty, no delimiter in it. *)
Definition token (delim : ascii) (name : string) : Prop :=
  name <> "" /\ strchr name delim = false.

(** A byte of the formatted host against the byte of the 'source' host
    it stands for: the same byte, or a digit 0 or 1 for a wildcard. *)
Definition formats (c d : ascii) : Prop :=
  (c <> "%"%char /\ d = c) \/ (c = "%"%char /\ (d = "0"%char \/ d = "1"%char)).

Definition tab : string := String (ascii_of_nat 9) "".
Definition newline : string := String (ascii_of_nat 10) "".

(** The "%d" conversion of an [int]. *)
Definition format_d (z : Z) : string :=
  if z <? 0 then "-" +:+ decimal_go 10 (- z) "" else decimal_go 10 z "".

Section More.
Context {re : Pcre2} {core : MaxScaleCore}.

(** [~RegexHintInst], which [free_instance] runs: the source handed to
    MXS_FREE and the regexes handed to [pcre2_code_free], in order. *)
Record Destroyed := {
  freed_source : option REGEXHINT_SOURCE_HOST;
  freed_regexes : list pcre2_code
}.

Definition free_instance (inst : RegexHintInst) : Destroyed :=
  {| freed_source := m_source inst;
     freed_regexes := map m_regex (m_mapping inst) |}.

(** The texts [diagnostic] prints for one entry of the mapping; there is
    none when the entry has no server, where the source reads
    [m_servers[0]] of an empty vector. *)
Definition entry_text (e : RegexToServers) : option (list string) :=
  match m_servers e with
  | [] => None
  | first :: others =>
      Some ([tab +:+ tab +:+ tab +:+ "/" +:+ m_match e +:+ "/ -> "; first]
            ++ map (fun s => ", " +:+ s) others ++ [newline])
  end.

Fixpoint entries_text (mapping : MappingArray) : option (list string) :=
  match mapping with
  | [] => Some []
  | e :: rest =>
      match entry_text e, entries_text rest with
      | Some a, Some b => Some (a ++ b)
      | _, _ => None
      end
  end.

(** [RegexHintInst::diagnostic]: the texts of the [dcb_printf] calls, in
    order.  There is no result where the source reads the first server
    of an entry without servers or prints a NULL address with "%s".  The
    unsigned totals are printed with "%d". *)
Definition diagnostic (inst : RegexHintInst) (my_session : option RegexHintSess)
    : option (list string) :=
  match entries_text (m_mapping inst) with
  | None => None
  | Some entries =>
      let head :=
        if 0 <? Z.of_nat (length (m_mapping inst))
        then [tab +:+ tab +:+ "Matches and routes:" +:+ newline] else [] in
      let totals :=
        [tab +:+ tab +:+ "Total no. of queries diverted by filter (approx.):     "
           +:+ format_d (wrap_int (m_total_diverted inst)) +:+ newline;
         tab +:+ tab +:+ "Total no. of queries not diverted by filter (approx.): "
           +:+ format_d (wrap_int (m_total_undiverted inst)) +:+ newline] in
      let session :=
        match my_session with
        | Some s =>
            [tab +:+ tab +:+ "No. of queries diverted by filter: "
               +:+ format_d (n_diverted s) +:+ newline;
             tab +:+ tab +:+ "No. of queries not diverted by filter:     "
               +:+ format_d (n_undiverted s) +:+ newline]
        | None => []
        end in
      let user :=
        if negb (strlen (m_user inst) =? 0)
        then [tab +:+ tab +:+ "Replacement limit to user           "
                +:+ m_user inst +:+ newline]
        else [] in
      match m_source inst with
      | Some src =>
          match address src with
          | Some a =>
              Some (head ++ entries ++ totals ++ session
                    ++ [tab +:+ tab +:+ "Replacement limited to connections from     "
                          +:+ a +:+ newline]
                    ++ user)
          | None => None
          end
      | None => Some (head ++ entries ++ totals ++ session ++ user)
      end
  end.

End More.

(** The parameters the module declares before the match/server pairs. *)
Definition base_parameters : list string :=
  ["source"; "user"; "ovector_size"; "options"].

(** [match_server_pairs] of [MXS_CREATE_MODULE], for the value of the
    constant MXS_MODULE_PARAM_MAX; the division is that of C. *)
Definition match_server_pairs (MXS_MODULE_PARAM_MAX : Z) : Z :=
  let pairs := Z.quot (MXS_MODULE_PARAM_MAX - Z.of_nat (length base_parameters)) 2 in
  if 100 <? pairs then 100 else pairs.

(** The names in [info.parameters] when [MXS_CREATE_MODULE] returns, the
    two global name arrays having been empty before. *)
Definition module_parameters (MXS_MODULE_PARAM_MAX : Z) : list string :=
  let names := generate_param_names (match_server_pairs MXS_MODULE_PARAM_MAX) in
  base_parameters
  ++ flat_map (fun p => [fst p; snd p]) (combine (fst names) (snd names)).

End NamedServerFilterMore.

(* ===================================================================== *)
(** ** luafilter.c: replies *)
(* ===================================================================== *)

Module LuaFilterMore.
Import CLib LuaFilter.

Section More.
Context {rt : LuaRuntime}.

(** What a call of [clientReply] leaves behind: the instance and the
    session, the messages logged, the buffer handed upstream and the
    value returned. *)
Record Replied := {
  re_instance : LUA_INSTANCE;
  re_session : LUA_SESSION;
  re_logged : list Event;
  re_up : GWBUF;
  re_rc : option Z
}.

Definition set_lua_state (s : LUA_SESSION) (L : option lua_State) : LUA_SESSION :=
  {| client_write := client_write s; lua_state := L;
     current_query := current_query s; down := down s; up := up s |}.

(** [clientReply].  When the call in the global state fails, the message
    logged is read from the stack of the session's state, as the source
    does; there is no result when that state is NULL. *)
Definition clientReply (my_instance : LUA_INSTANCE) (my_session : LUA_SESSION)
    (queue : GWBUF) : option Replied :=
  let own : option lua_State * list Event :=
    match lua_state my_session with
    | Some L =>
        let r := call_entry_point L "clientReply" in (Some (fst r), snd r)
    | None => (None, [])
    end in
  let both : option (option lua_State * option lua_State * list Event) :=
    match global_lua_state my_instance with
    | Some G =>
        let r := lua_pcall None (lua_getglobal G "clientReply") 0 0 in
        if negb (fst r =? LUA_OK) then
          match fst own with
          | Some L =>
              let t := lua_tostring L in
              Some (Some (snd t), Some (lua_pop_minus1 (snd r)),
                    snd own ++ [Log (fst t)])
          | None => None
          end
        else Some (fst own, Some (snd r), snd own)
    | None => Some (fst own, None, snd own)
    end in
  match both with
  | None => None
  | Some (L, G, logged) =>
      Some {| re_instance := with_global my_instance G;
              re_session := set_lua_state my_session L;
              re_logged := logged;
              re_up := queue;
              re_rc := match up my_session with
                       | Some f => Some (f queue)
                       | None => None
                       end |}
  end.

End More.

End LuaFilterMore.

Module DemoMore.
Import CLib NamedServerFilter NamedServerFilterMore Demo.
#[local] Existing Instance toy_pcre2.
#[local] Existing Instance toy_core.

(** The plain instance restricted to a source. *)
Definition restricted (src : REGEXHINT_SOURCE_HOST) : RegexHintInst :=
  {| m_user := ""; m_source := Some src; m_mapping := m_mapping plain_instance;
     m_ovector_size := 1; m_total_diverted := 0; m_total_undiverted := 0 |}.

Definition exact_source : REGEXHINT_SOURCE_HOST :=
  {| address := Some "10.0.0.7"; ipv4 := 0; netmask := 32 |}.

(** What the host 10.0.0.% is recorded as: 10.0.0.1 resolves to 16777226,
    whose low 24 bits are 10. *)
Definition subnet_source : REGEXHINT_SOURCE_HOST :=
  {| address := Some "10.0.0.%"; ipv4 := 10; netmask := 24 |}.

(** Good match/server pairs with a 'source' that is no address. *)
Definition careless_params : gmap string string :=
  {[ "match" := "insert"; "server" := "server1"; "source" := "localhost" ]}.

Definition names30 : list string * list string := generate_param_names 30.

End DemoMore.

Module LuaDemoMore.
Import CLib LuaFilter LuaDemo.
#[local] Existing Instance toy_lua.

(** The instance and the session the two toy scripts give. *)
Definition toy_instance : LUA_INSTANCE :=
  {| global_lua_state := Some {| stack := []; env := "global.lua" |};
     global_script := Some "global.lua";
     session_script := Some "session.lua" |}.

Definition toy_session : LUA_SESSION :=
  {| client_write := fun _ => 1;
     lua_state := Some {| stack := []; env := "session.lua" |};
     current_query := None;
     down := Some (fun _ => 1);
     up := Some (fun _ => 1) |}.

(** The same session under an instance without a global script. *)
Definition session_only : LUA_INSTANCE :=
  {| global_lua_state := None; global_script := None;
     session_script := Some "session.lua" |}.

(** Parameters without scripts. *)
Definition no_scripts : list FILTER_PARAMETER :=
  [ {| name := "type"; value := "filter" |} ].

(** The toy interpreter with scripts that define nothing: every call is
    the call of a nil value. *)
Definition empty_lua : LuaRuntime :=
  {| GWBUF := packet;
     lua_Closure := string;
     lua_Env := string;
     luaL_dofile := fun path => inr (path, []);
     lua_global := fun _ _ => LNil;
     lua_register := fun env _ => env;
     lua_apply := fun env _ _ _ => (env, inl (LString "attempt to call a nil value"));
     modutil_is_SQL := fun b => match b with Query _ => true | _ => false end;
     modutil_is_SQL_prepare := fun _ => false;
     modutil_get_SQL := fun b => match b with Query sql => Some sql | _ => None end;
     modutil_create_query := Query;
     modutil_create_mysql_err_msg := fun _ _ _ _ message => Error message;
     filter_standard_parameter := fun name => String.eqb name "type" |}.

(** An instance and a session of such scripts, without global script. *)
Definition empty_instance : @LUA_INSTANCE empty_lua :=
  {| global_lua_state := None; global_script := None;
     session_script := Some "empty.lua" |}.

Definition empty_session : @LUA_SESSION empty_lua :=
  {| client_write := fun _ => 1;
     lua_state := Some (@Build_lua_State empty_lua [] "empty.lua");
     current_query := None;
     down := Some (fun _ => 1);
     up := None |}.

End LuaDemoMore.

(* ===================================================================== *)
(** ** Properties of namedserverfilter.cc *)
(* ===================================================================== *)

Module NamedServerFilterFacts.
Import CLib NamedServerFilter Shapes.

(** *** The 'source' parameter *)

Lemma check_each_byte_spec (host : string) (n : Z) :
  check_each_byte host n =
  if all_chars host_char host then Some (n + count_char "." host) else None.
Proof.
  revert n. induction host as [|c rest IH]; intros n; simpl.
  - f_equal. lia.
  - unfold host_char at 1.
    destruct (isdigit c), (Ascii.eqb c ".") eqn:Edot, (Ascii.eqb c "%"); simpl;
      try reflexivity; rewrite IH; destruct (all_chars host_char rest);
      try reflexivity; f_equal; lia.
Qed.

Lemma char_is_true (o : option ascii) (c : ascii) :
  char_is o c = true <-> o = Some c.
Proof.
  destruct o as [d|]; simpl.
  - rewrite Ascii.eqb_eq. split; congruence.
  - split; discriminate.
Qed.

Lemma char_is_false (o : option ascii) (c : ascii) :
  char_is o c = false <-> o <> Some c.
Proof.
  rewrite <- char_is_true. destruct (char_is o c); split; congruence.
Qed.

(** [validate_ip_address] accepts exactly the strings of the shape. *)
Lemma validate_ip_address_spec (host : string) :
  validate_ip_address host = true <-> source_shape host.
Proof.
  unfold validate_ip_address, source_shape.
  rewrite check_each_byte_spec.
  destruct (char_is (first_char host) "%") eqn:E1; simpl.
  { apply char_is_true in E1. split; [discriminate | tauto]. }
  destruct (char_is (first_char host) ".") eqn:E2; simpl.
  { apply char_is_true in E2. split; [discriminate | tauto]. }
  apply char_is_false in E1. apply char_is_false in E2.
  destruct (INET_ADDRSTRLEN <? strlen host) eqn:E3.
  { apply Z.ltb_lt in E3. split; [discriminate | lia]. }
  apply Z.ltb_ge in E3.
  destruct (all_chars host_char host).
  2:{ split; [discriminate | intros (_ & _ & _ & _ & _ & H); discriminate]. }
  destruct (0 + count_char "." host =? 3) eqn:E4; simpl.
  2:{ apply Z.eqb_neq in E4. split; [discriminate | lia]. }
  apply Z.eqb_eq in E4.
  destruct (char_is (last_char host) ".") eqn:E5; simpl.
  - apply char_is_true in E5. split; [discriminate | tauto].
  - apply char_is_false in E5. split; [intros _ | reflexivity].
    repeat split; auto; lia.
Qed.

Lemma strchr_count (s : string) (c : ascii) :
  strchr s c = false -> count_char c s = 0.
Proof.
  induction s as [|d rest IH]; simpl; [reflexivity|].
  destruct (Ascii.eqb d c); [discriminate|]. intros H. rewrite IH by exact H. lia.
Qed.

Lemma count_char_nonneg (c : ascii) (s : string) : 0 <= count_char c s.
Proof.
  induction s as [|d rest IH]; simpl; [lia|]. destruct (Ascii.eqb d c); lia.
Qed.

(** While no more than three dots are met the copying loop reaches the
    end of the string and takes 8 off the netmask for every percent
    sign. *)
Lemma format_loop_netmask (p : string) (bytes nm : Z) :
  bytes + count_char "." p <= 3 ->
  snd (format_loop p bytes nm) = nm - 8 * count_char "%" p.
Proof.
  revert bytes nm. induction p as [|c rest IH]; intros bytes nm Hb; simpl.
  - lia.
  - simpl in Hb. pose proof (count_char_nonneg "." rest) as Hnn.
    destruct (Ascii.eqb c ".") eqn:Edot.
    + destruct (bytes <=? 3) eqn:E3; [|apply Z.leb_gt in E3; lia].
      apply Ascii.eqb_eq in Edot. subst c. simpl.
      rewrite IH by lia. lia.
    + destruct (bytes <=? 3) eqn:E3; [|apply Z.leb_gt in E3; lia].
      destruct (Ascii.eqb c "%"); simpl; rewrite IH by lia; lia.
Qed.

Section Source.
Context {core : MaxScaleCore}.

(** With the address recorded as NULL, [newSession] does not look at the
    client's address: sessions of the same user are equally active
    wherever they come from. *)
Lemma unusable_source_is_not_checked {re : Pcre2} (inst : RegexHintInst)
    (src : REGEXHINT_SOURCE_HOST) (c1 c2 : MXS_SESSION) :
  m_source inst = Some src ->
  address src = None ->
  user c1 = user c2 ->
  active (newSession inst c1) = active (newSession inst c2).
Proof.
  intros Hsrc Haddr Huser. unfold newSession. cbn [active].
  rewrite Hsrc, Haddr, Huser. reflexivity.
Qed.

(** C9.  A 'source' host string is accepted (the struct that
    [set_source_address] returns has a non-NULL address) only when it
    has exactly three dots, begins with neither a percent sign nor a dot,
    does not end with a dot, is at most INET_ADDRSTRLEN bytes long and
    consists of digits, dots and percent signs only; when it is accepted
    the netmask is 32 minus 8 for each percent sign; and for a string
    that is not of this shape the address is recorded as NULL. *)
Theorem source_host_accepted_only_when_valid (host : string)
    (src : REGEXHINT_SOURCE_HOST) :
  set_source_address host = Some src ->
  (address src <> None ->
     source_shape host /\ netmask src = 32 - 8 * count_char "%" host) /\
  (~ source_shape host -> address src = None).
Proof.
  unfold set_source_address. intros H.
  destruct (validate_ip_address host) eqn:Ev; simpl in H.
  - pose proof (proj1 (validate_ip_address_spec host) Ev) as Hshape.
    split; [|intros Hn; contradiction].
    intros Ha. split; [exact Hshape|].
    destruct (strchr host "%") eqn:Ep; simpl in H.
    + destruct (setipaddress (fst (format_loop host 0 32))) as [a|];
        [destruct (strlen (fst (format_loop host 0 32)) =? 0); simpl in H|];
        injection H as <-; simpl in *; try congruence.
      apply format_loop_netmask. destruct Hshape as (Hd & _). lia.
    + injection H as <-. simpl. rewrite (strchr_count _ _ Ep). lia.
  - injection H as <-. simpl. split; [congruence|reflexivity].
Qed.

End Source.

(** Under the toy core the host 10.0.%.% is accepted with netmask 16. *)
Lemma source_host_accepted_only_when_valid_witness :
  exists src,
    @set_source_address Demo.toy_core "10.0.%.%" = Some src /\
    source_shape "10.0.%.%" /\ netmask src = 16.
Proof.
  eexists. split; [reflexivity|].
  apply (@source_host_accepted_only_when_valid Demo.toy_core "10.0.%.%" _ eq_refl).
  simpl. discriminate.
Defined.

(** *** Routing *)

Section Routing.
Context {re : Pcre2} {core : MaxScaleCore}.

(** [find_servers] stops at the first entry whose regex does not report
    "no match", and yields that entry's servers if the regex matched. *)
Lemma find_servers_spec (mapping : MappingArray) (sess : RegexHintSess)
    (servers : StringArray) (sql : string) :
  find_servers mapping sess servers sql =
  match first_deciding mapping sess sql with
  | Some e =>
      let result := pcre2_match (m_regex e) sql (match_data sess) in
      if 0 <=? result then (result, m_servers e) else (result, servers)
  | None => (PCRE2_ERROR_NOMATCH, servers)
  end.
Proof.
  unfold first_deciding.
  induction mapping as [|e rest IH]; simpl; [reflexivity|].
  unfold entry_decides at 1.
  destruct (0 <=? pcre2_match (m_regex e) sql (match_data sess)) eqn:Hge.
  - apply Z.leb_le in Hge.
    destruct (pcre2_match (m_regex e) sql (match_data sess) =? PCRE2_ERROR_NOMATCH) eqn:Hno.
    + apply Z.eqb_eq in Hno. unfold PCRE2_ERROR_NOMATCH in Hno. lia.
    + simpl. apply Z.leb_le in Hge. rewrite Hge. reflexivity.
  - destruct (pcre2_match (m_regex e) sql (match_data sess) =? PCRE2_ERROR_NOMATCH) eqn:Hno;
      simpl.
    + exact IH.
    + rewrite Hge. reflexivity.
Qed.

(** An entry that matches also ends the search. *)
Lemma entry_matches_decides (sess : RegexHintSess) (sql : string) (e : RegexToServers) :
  entry_matches sess sql e = true -> entry_decides sess sql e = true.
Proof.
  unfold entry_matches, entry_decides, PCRE2_ERROR_NOMATCH. intros H.
  apply Z.leb_le in H. apply negb_true_iff. apply Z.eqb_neq. lia.
Qed.

(** When no entry matches, the search ends without a match: the first
    entry that ends it, if any, reports an error. *)
Lemma first_deciding_no_match (mapping : MappingArray) (sess : RegexHintSess)
    (sql : string) (e : RegexToServers) :
  first_matching mapping sess sql = None ->
  first_deciding mapping sess sql = Some e ->
  entry_matches sess sql e = false.
Proof.
  unfold first_matching, first_deciding. intros Hnone Hsome.
  apply find_some in Hsome as [Hin _].
  exact (find_none _ _ Hnone _ Hin).
Qed.

(** What [routeQuery] does with an SQL statement on an active session. *)
Lemma routeQuery_statement (inst : RegexHintInst) (sess : RegexHintSess)
    (q : Buffer) (sql : string) :
  active sess <> 0 ->
  modutil_is_SQL q = true ->
  modutil_extract_SQL q = Some sql ->
  let found := find_servers (m_mapping inst) sess [] sql in
  routeQuery inst sess q =
  if 0 <=? fst found then
    {| rq_instance := diverted inst;
       rq_session :=
         {| down := down sess; n_diverted := wrap_int (n_diverted sess + 1);
            n_undiverted := n_undiverted sess; active := active sess;
            match_data := match_data sess;
            regex_error_printed := regex_error_printed sess |};
       rq_queue := {| data := data q; hint := add_hints (hint q) (snd found) |};
       rq_rval :=
         match down sess with
         | Some route =>
             Some (route {| data := data q; hint := add_hints (hint q) (snd found) |})
         | None => None
         end |}
  else
    {| rq_instance := undiverted inst;
       rq_session :=
         {| down := down sess; n_diverted := n_diverted sess;
            n_undiverted := wrap_int (n_undiverted sess + 1); active := active sess;
            match_data := match_data sess;
            regex_error_printed :=
              if fst found =? PCRE2_ERROR_NOMATCH then regex_error_printed sess
              else true |};
       rq_queue := q;
       rq_rval := match down sess with
                  | Some route => Some (route q)
                  | None => None
                  end |}.
Proof.
  intros Ha Hsql Hex found. unfold routeQuery.
  rewrite Hsql, Hex. apply Z.eqb_neq in Ha. rewrite Ha. simpl.
  subst found. destruct (find_servers (m_mapping inst) sess [] sql) as [result servers].
  simpl. destruct (0 <=? result); [reflexivity|].
  destruct (result =? PCRE2_ERROR_NOMATCH); reflexivity.
Qed.

(** What [routeQuery] does otherwise: nothing but the downstream call. *)
Lemma routeQuery_other (inst : RegexHintInst) (sess : RegexHintSess) (q : Buffer) :
  active sess = 0 \/ is_statement q = false ->
  routeQuery inst sess q =
  {| rq_instance := inst; rq_session := sess; rq_queue := q;
     rq_rval := match down sess with
                | Some route => Some (route q)
                | None => None
                end |}.
Proof.
  unfold routeQuery, is_statement. intros [Ha | Hs].
  - rewrite Ha. rewrite andb_false_r. reflexivity.
  - destruct (modutil_is_SQL q); simpl in *; [|reflexivity].
    destruct (modutil_extract_SQL q); [discriminate|].
    destruct (negb (active sess =? 0)); reflexivity.
Qed.

(** C1 (amended).  For a buffer that holds an SQL statement, routed
    through an active session, the statement text is matched against the
    entries of the mapping in order until an entry's regex matches or
    fails with a matching error.  If the search ends at the first
    matching entry, one HINT_ROUTE_TO_NAMED_SERVER hint per server name
    of that entry is attached to the buffer; if no entry matches, or the
    search ends at an entry whose regex fails with an error, the hints
    are unchanged.  In each case the buffer is then passed downstream. *)
Theorem hints_for_first_match_unless_error (inst : RegexHintInst)
    (sess : RegexHintSess) (q : Buffer) (sql : string) (route : Buffer -> Z) :
  active sess <> 0 ->
  modutil_is_SQL q = true ->
  modutil_extract_SQL q = Some sql ->
  down sess = Some route ->
  let r := routeQuery inst sess q in
  rq_rval r = Some (route (rq_queue r)) /\
  (forall e,
     first_matching (m_mapping inst) sess sql = Some e ->
     first_deciding (m_mapping inst) sess sql = Some e ->
     rq_queue r =
     {| data := data q;
        hint := fold_left (fun h s => hint_create_route h HINT_ROUTE_TO_NAMED_SERVER s)
                  (m_servers e) (hint q) |}) /\
  (first_matching (m_mapping inst) sess sql = None -> rq_queue r = q) /\
  (forall e,
     first_deciding (m_mapping inst) sess sql = Some e ->
     entry_matches sess sql e = false ->
     rq_queue r = q).
Proof.
  intros Ha Hsql Hex Hd r. subst r.
  rewrite (routeQuery_statement inst sess q sql Ha Hsql Hex). cbv zeta.
  rewrite find_servers_spec.
  destruct (first_deciding (m_mapping inst) sess sql) as [e|] eqn:Hfd.
  - cbv zeta.
    destruct (0 <=? pcre2_match (m_regex e) sql (match_data sess)) eqn:Hm; simpl;
      rewrite Hm; simpl; rewrite Hd.
    + split; [reflexivity|]. split; [|split].
      * intros e' _ He'. injection He' as <-. reflexivity.
      * intros Hnone.
        pose proof (first_deciding_no_match _ _ _ _ Hnone Hfd) as Hno.
        unfold entry_matches in Hno. congruence.
      * intros e' He' Hno. injection He' as <-.
        unfold entry_matches in Hno. congruence.
    + split; [reflexivity|]. split; [|split]; auto.
      intros e' Hfm He'. injection He' as <-.
      apply find_some in Hfm as [_ Hfm]. unfold entry_matches in Hfm. congruence.
  - simpl. rewrite Hd. split; [reflexivity|]. split; [|split]; auto.
    intros e' Hfm He'. discriminate.
Qed.

(** *** Session counters *)

Lemma wrap_int_small (z : Z) :
  -2147483648 <= z <= INT_MAX -> wrap_int z = z.
Proof.
  unfold wrap_int, INT_MAX. intros H.
  rewrite Z.mod_small by lia. lia.
Qed.

Lemma routeQuery_active (inst : RegexHintInst) (sess : RegexHintSess) (q : Buffer) :
  active (rq_session (routeQuery inst sess q)) = active sess.
Proof.
  destruct (Z.eq_dec (active sess) 0) as [Ha | Ha].
  - rewrite routeQuery_other by (left; exact Ha). reflexivity.
  - destruct (is_statement q) eqn:Hs.
    + unfold is_statement in Hs. apply andb_prop in Hs as [Hsql Hex].
      destruct (modutil_extract_SQL q) as [sql|] eqn:He; [|discriminate].
      rewrite (routeQuery_statement inst sess q sql Ha Hsql He). cbv zeta.
      destruct (0 <=? _); reflexivity.
    + rewrite routeQuery_other by (right; exact Hs). reflexivity.
Qed.

(** A call on an active session with a statement moves exactly one of
    the two counters, by one. *)
Lemma routeQuery_counts_one (inst : RegexHintInst) (sess : RegexHintSess)
    (q : Buffer) (sql : string) :
  active sess <> 0 ->
  modutil_is_SQL q = true ->
  modutil_extract_SQL q = Some sql ->
  let s' := rq_session (routeQuery inst sess q) in
  ((exists e, first_deciding (m_mapping inst) sess sql = Some e /\
              entry_matches sess sql e = true) /\
   n_diverted s' = wrap_int (n_diverted sess + 1) /\
   n_undiverted s' = n_undiverted sess)
  \/
  ((forall e, first_deciding (m_mapping inst) sess sql = Some e ->
              entry_matches sess sql e = false) /\
   n_diverted s' = n_diverted sess /\
   n_undiverted s' = wrap_int (n_undiverted sess + 1)).
Proof.
  intros Ha Hsql Hex s'. subst s'.
  rewrite (routeQuery_statement inst sess q sql Ha Hsql Hex). cbv zeta.
  rewrite find_servers_spec.
  destruct (first_deciding (m_mapping inst) sess sql) as [e|] eqn:Hfd.
  - cbv zeta.
    destruct (0 <=? pcre2_match (m_regex e) sql (match_data sess)) eqn:Hm; simpl;
      rewrite Hm; simpl.
    + left. split; [|split; reflexivity]. exists e. split; [reflexivity|exact Hm].
    + right. split; [|split; reflexivity]. intros e' He'. injection He' as <-. exact Hm.
  - simpl. right. split; [|split; reflexivity]. intros e' He'. discriminate.
Qed.

Lemma route_all_active (qs : list Buffer) (inst : RegexHintInst) (sess : RegexHintSess) :
  active (snd (route_all inst sess qs)) = active sess.
Proof.
  revert inst sess. induction qs as [|q rest IH]; intros inst sess; simpl; [reflexivity|].
  rewrite IH. apply routeQuery_active.
Qed.

(** Over a run of calls on an active session the two counters together
    grow by the number of statements, as long as that stays within the
    range of [int]. *)
Lemma route_all_counts (qs : list Buffer) (inst : RegexHintInst) (sess : RegexHintSess) :
  active sess <> 0 ->
  0 <= n_diverted sess ->
  0 <= n_undiverted sess ->
  n_diverted sess + n_undiverted sess + statements qs <= INT_MAX ->
  let s' := snd (route_all inst sess qs) in
  0 <= n_diverted s' /\ 0 <= n_undiverted s' /\
  n_diverted s' + n_undiverted s' =
  n_diverted sess + n_undiverted sess + statements qs.
Proof.
  revert inst sess. unfold statements.
  induction qs as [|q rest IH]; intros inst sess Ha Hd Hu Hb; simpl.
  - simpl in Hb. lia.
  - simpl in Hb.
    assert (Ha' : active (rq_session (routeQuery inst sess q)) <> 0)
      by (rewrite routeQuery_active; exact Ha).
    destruct (is_statement q) eqn:Hs.
    + simpl length in *.
      pose proof Hs as Hs'. unfold is_statement in Hs'.
      apply andb_prop in Hs' as [Hsql Hex].
      destruct (modutil_extract_SQL q) as [sql|] eqn:He; [|discriminate].
      pose proof (routeQuery_counts_one inst sess q sql Ha Hsql He) as Hone.
      cbv zeta in Hone.
      unfold INT_MAX in *.
      destruct Hone as [(_ & H1 & H2) | (_ & H1 & H2)];
        rewrite wrap_int_small in * by (unfold INT_MAX; lia);
        specialize (IH (rq_instance (routeQuery inst sess q))
                       (rq_session (routeQuery inst sess q)) Ha');
        cbv zeta in IH; rewrite H1, H2 in IH;
        specialize (IH ltac:(lia) ltac:(lia) ltac:(lia)); lia.
    + rewrite (routeQuery_other inst sess q) by (right; exact Hs). simpl.
      apply IH; assumption.
Qed.

(** On an inactive session a run of calls leaves the counters alone. *)
Lemma route_all_inactive (qs : list Buffer) (inst : RegexHintInst) (sess : RegexHintSess) :
  active sess = 0 ->
  n_diverted (snd (route_all inst sess qs)) = n_diverted sess /\
  n_undiverted (snd (route_all inst sess qs)) = n_undiverted sess.
Proof.
  revert inst. induction qs as [|q rest IH]; intros inst Ha; simpl; [split; reflexivity|].
  rewrite (routeQuery_other inst sess q) by (left; exact Ha). simpl. apply IH. exact Ha.
Qed.

(** C10.  A call of [routeQuery] on an active session with an SQL
    statement increments exactly one of the session counters: n_diverted
    when the search finds a matching regex, n_undiverted when it ends
    without a match or with a matching error.  A call on an inactive
    session, or with a buffer that is not an SQL statement, leaves both
    unchanged.  So for a session that starts with both counters at zero,
    as [newSession] leaves them, and is active, n_diverted + n_undiverted
    is the number of SQL statements processed (the counters are [int]s:
    up to INT_MAX statements). *)
Theorem session_counters_count_statements (inst : RegexHintInst)
    (sess : RegexHintSess) :
  (forall q sql,
     active sess <> 0 ->
     modutil_is_SQL q = true ->
     modutil_extract_SQL q = Some sql ->
     let s' := rq_session (routeQuery inst sess q) in
     ((exists e, first_deciding (m_mapping inst) sess sql = Some e /\
                 entry_matches sess sql e = true) /\
      n_diverted s' = wrap_int (n_diverted sess + 1) /\
      n_undiverted s' = n_undiverted sess)
     \/
     ((forall e, first_deciding (m_mapping inst) sess sql = Some e ->
                 entry_matches sess sql e = false) /\
      n_diverted s' = n_diverted sess /\
      n_undiverted s' = wrap_int (n_undiverted sess + 1))) /\
  (forall q,
     active sess = 0 \/ is_statement q = false ->
     n_diverted (rq_session (routeQuery inst sess q)) = n_diverted sess /\
     n_undiverted (rq_session (routeQuery inst sess q)) = n_undiverted sess) /\
  (forall client, n_diverted (newSession inst client) = 0 /\
                  n_undiverted (newSession inst client) = 0) /\
  (forall qs,
     n_diverted sess = 0 ->
     n_undiverted sess = 0 ->
     active sess <> 0 ->
     statements qs <= INT_MAX ->
     n_diverted (snd (route_all inst sess qs)) +
     n_undiverted (snd (route_all inst sess qs)) = statements qs).
Proof.
  split; [|split; [|split]].
  - intros q sql. apply routeQuery_counts_one.
  - intros q H. rewrite (routeQuery_other inst sess q H). split; reflexivity.
  - intros client. split; reflexivity.
  - intros qs Hd Hu Ha Hb.
    pose proof (route_all_counts qs inst sess Ha) as H. cbv zeta in H.
    rewrite Hd, Hu in H. specialize (H ltac:(lia) ltac:(lia) ltac:(lia)). lia.
Qed.

End Routing.

(** A SELECT routed through the plain instance gets the hints of its
    second entry, the first one whose regex matches. *)
Lemma hints_for_first_match_unless_error_witness :
  rq_queue (routeQuery Demo.plain_instance (Demo.session_of Demo.plain_instance)
              (Demo.query "select 1")) =
  {| data := Some "select 1"; hint := [(true, "server3"); (true, "server2")] |}.
Proof.
  pose proof (@hints_for_first_match_unless_error Demo.toy_pcre2 Demo.toy_core
                Demo.plain_instance (Demo.session_of Demo.plain_instance)
                (Demo.query "select 1") "select 1" Demo.router
                ltac:(vm_compute; discriminate) eq_refl eq_refl eq_refl) as H.
  destruct H as (_ & H & _).
  exact (H (Demo.entry "select" ["server2"; "server3"]) eq_refl eq_refl).
Defined.

(** *** Instance creation *)

Section Creation.
Context {re : Pcre2} {core : MaxScaleCore}.
Variables (pcre_ops : Z) (params : gmap string string).

Lemma strlen_nonneg (s : string) : 0 <= strlen s.
Proof. unfold strlen. lia. Qed.

Lemma body_unconfigured (st : MappingLoop) (names : string * string) :
  configured params names = false ->
  mapping_loop_body pcre_ops params st names = st.
Proof.
  unfold configured, mapping_loop_body. intros H.
  pose proof (strlen_nonneg (config_get_string params (fst names))).
  pose proof (strlen_nonneg (config_get_string params (snd names))).
  destruct (strlen (config_get_string params (fst names)) <? 1) eqn:E1; [reflexivity|].
  destruct (strlen (config_get_string params (snd names)) <? 1) eqn:E2; [reflexivity|].
  apply Z.ltb_ge in E1, E2.
  apply andb_false_iff in H as [H | H]; apply Z.ltb_ge in H; lia.
Qed.

Lemma body_configured (st : MappingLoop) (names : string * string) :
  configured params names = true ->
  mapping_loop_body pcre_ops params st names =
  match pcre2_compile (config_get_string params (fst names)) pcre_ops with
  | Some regex =>
      match strtok_all (config_get_string params (snd names)) "," with
      | [] =>
          {| ml_mapping := ml_mapping st; ml_error := true;
             ml_compiled := ml_compiled st ++ [regex];
             ml_freed := ml_freed st ++ [regex] |}
      | names' =>
          {| ml_mapping :=
               ml_mapping st ++
               [{| m_match := config_get_string params (fst names);
                   m_regex := regex; m_servers := names' |}];
             ml_error := ml_error st;
             ml_compiled := ml_compiled st ++ [regex];
             ml_freed := ml_freed st |}
      end
  | None =>
      {| ml_mapping := ml_mapping st; ml_error := true;
         ml_compiled := ml_compiled st; ml_freed := ml_freed st |}
  end.
Proof.
  unfold configured, mapping_loop_body. intros H.
  apply andb_prop in H as [H1 H2]. apply Z.ltb_lt in H1, H2.
  destruct (strlen (config_get_string params (fst names)) <? 1) eqn:E1;
    [apply Z.ltb_lt in E1; lia|].
  destruct (strlen (config_get_string params (snd names)) <? 1) eqn:E2;
    [apply Z.ltb_lt in E2; lia|].
  simpl. destruct (pcre2_compile _ _) as [regex|]; [|reflexivity].
  unfold add_servers. simpl.
  destruct (strtok_all (config_get_string params (snd names)) ",") as [|n ns];
    reflexivity.
Qed.

#[local] Abbreviation loop pairs st :=
  (fold_left (mapping_loop_body pcre_ops params) pairs st).

(** Every regex compiled so far has been freed or sits in the mapping. *)
Lemma loop_heap (pairs : list (string * string)) (st : MappingLoop) :
  Permutation (ml_compiled st) (ml_freed st ++ map m_regex (ml_mapping st)) ->
  Permutation (ml_compiled (loop pairs st))
    (ml_freed (loop pairs st) ++ map m_regex (ml_mapping (loop pairs st))).
Proof.
  revert st. induction pairs as [|names rest IH]; intros st Hst; [exact Hst|].
  simpl. apply IH.
  destruct (configured params names) eqn:Hc.
  - rewrite (body_configured st names Hc).
    destruct (pcre2_compile _ _) as [regex|]; [|exact Hst].
    destruct (strtok_all _ _) as [|n ns]; simpl.
    + rewrite <- app_assoc.
      rewrite Hst. rewrite <- app_assoc.
      apply Permutation_app_head. apply Permutation_app_comm.
    + rewrite map_app. simpl. rewrite app_assoc.
      apply Permutation_app_tail. exact Hst.
  - rewrite (body_unconfigured st names Hc). exact Hst.
Qed.

(** The error flag is raised exactly when some pair fails. *)
Lemma loop_error (pairs : list (string * string)) (st : MappingLoop) :
  ml_error (loop pairs st) = ml_error st || existsb (pair_fails pcre_ops params) pairs.
Proof.
  revert st. induction pairs as [|names rest IH]; intros st.
  - simpl. rewrite orb_false_r. reflexivity.
  - simpl. rewrite IH. unfold pair_fails at 2.
    destruct (configured params names) eqn:Hc.
    + rewrite (body_configured st names Hc).
      destruct (pcre2_compile _ _) as [regex|]; simpl.
      * destruct (strtok_all _ _) as [|n ns]; simpl; [|reflexivity].
        rewrite orb_true_r. reflexivity.
      * rewrite orb_true_r. reflexivity.
    + rewrite (body_unconfigured st names Hc). reflexivity.
Qed.

(** Without an error the loop appends one entry per configured pair, in
    order. *)
Lemma loop_mapping (pairs : list (string * string)) (st : MappingLoop) :
  ml_error (loop pairs st) = false ->
  exists entries,
    ml_mapping (loop pairs st) = ml_mapping st ++ entries /\
    Forall2 (entry_for pcre_ops params) (List.filter (configured params) pairs) entries.
Proof.
  revert st. induction pairs as [|names rest IH]; intros st Herr.
  - exists []. simpl. rewrite app_nil_r. split; [reflexivity|constructor].
  - simpl in *.
    pose proof (loop_error rest (mapping_loop_body pcre_ops params st names)) as He.
    rewrite Herr in He. symmetry in He.
    apply orb_false_iff in He as [He _].
    destruct (IH _ Herr) as (entries & Hm & Hf).
    destruct (configured params names) eqn:Hc.
    + rewrite (body_configured st names Hc) in *.
      destruct (pcre2_compile (config_get_string params (fst names)) pcre_ops)
        as [regex|] eqn:Hcomp; [|discriminate].
      destruct (strtok_all (config_get_string params (snd names)) ",")
        as [|n ns] eqn:Htok; [discriminate|].
      simpl in Hm. rewrite <- app_assoc in Hm. simpl in Hm.
      eexists. split; [exact Hm|].
      constructor; [|exact Hf].
      unfold entry_for. simpl. rewrite Htok. repeat split; auto; discriminate.
    + rewrite (body_unconfigured st names Hc) in *.
      exists entries. split; assumption.
Qed.

(** [form_regex_server_mapping] started with an empty mapping: after a
    failure the mapping is empty and everything compiled has been freed;
    otherwise nothing has been freed and the mapping is complete. *)
Lemma form_regex_server_mapping_spec (names_match names_server : StringArray) :
  let pairs := combine names_match names_server in
  let st := form_regex_server_mapping [] pcre_ops params names_match names_server in
  (existsb (pair_fails pcre_ops params) pairs = true ->
   ml_mapping st = [] /\ Permutation (ml_compiled st) (ml_freed st)) /\
  (existsb (pair_fails pcre_ops params) pairs = false ->
   Forall2 (entry_for pcre_ops params) (List.filter (configured params) pairs)
     (ml_mapping st)).
Proof.
  intros pairs st. subst st. unfold form_regex_server_mapping. fold pairs.
  set (init := {| ml_mapping := []; ml_error := false;
                  ml_compiled := []; ml_freed := [] |}).
  pose proof (loop_error pairs init) as Herr.
  pose proof (loop_heap pairs init (Permutation_refl _)) as Hheap.
  pose proof (loop_mapping pairs init) as Hmap.
  cbn [ml_error init orb] in Herr.
  destruct (ml_error (loop pairs init)) eqn:Hflag; rewrite <- Herr.
  - split; [|discriminate]. intros _. split; [reflexivity|exact Hheap].
  - split; [discriminate|]. intros _.
    destruct (Hmap eq_refl) as (entries & Hm & Hf). rewrite Hm. exact Hf.
Qed.

End Creation.

Section CreateInstance.
Context {re : Pcre2} {core : MaxScaleCore}.

(** C8.  Instance creation is all-or-nothing.  If the regex of some
    configured match/server pair does not compile, or its server list
    holds no server name, the mapping is cleared, every regex that was
    compiled has been freed, and [createInstance] returns NULL.  When an
    instance is created, no pair has failed and its mapping has one entry
    for every configured pair, in order: never a partial mapping. *)
Theorem createInstance_all_or_nothing (param_names_match param_names_server : StringArray)
    (params : gmap string string) :
  let pairs := combine param_names_match param_names_server in
  let pcre_ops := config_get_enum params "options" option_values in
  let st := form_regex_server_mapping [] pcre_ops params
              param_names_match param_names_server in
  let c := createInstance param_names_match param_names_server params in
  (existsb (pair_fails pcre_ops params) pairs = true ->
     ml_mapping st = [] /\
     Permutation (cr_compiled c) (cr_freed c) /\
     cr_instance c = None) /\
  (forall inst,
     cr_instance c = Some inst ->
     existsb (pair_fails pcre_ops params) pairs = false /\
     Forall2 (entry_for pcre_ops params)
       (List.filter (configured params) pairs) (m_mapping inst)).
Proof.
  intros pairs pcre_ops st c.
  destruct (form_regex_server_mapping_spec pcre_ops params
              param_names_match param_names_server) as [Hbad Hgood].
  cbv zeta in Hbad, Hgood. fold pairs st in Hbad, Hgood.
  subst c. unfold createInstance. fold pcre_ops. fold st.
  split.
  - intros Hfail. destruct (Hbad Hfail) as [Hempty Hfreed].
    rewrite Hempty. cbn [length Z.of_nat Z.eqb orb cr_compiled cr_freed cr_instance].
    auto.
  - intros inst Hinst.
    destruct (existsb (pair_fails pcre_ops params) pairs) eqn:Hfail.
    + destruct (Hbad eq_refl) as [Hempty _]. rewrite Hempty in Hinst.
      cbn [length Z.of_nat Z.eqb orb cr_instance] in Hinst. discriminate.
    + split; [reflexivity|].
      destruct (_ || _); cbn [cr_instance] in Hinst; [discriminate|].
      injection Hinst as <-. cbn [m_mapping]. exact (Hgood eq_refl).
Qed.

End CreateInstance.

(** With the second regex an unbalanced parenthesis no instance is
    created, and the regex compiled for the first pair has been freed. *)
Lemma createInstance_all_or_nothing_witness :
  let names := generate_param_names 30 in
  let c := @createInstance Demo.toy_pcre2 Demo.toy_core (fst names) (snd names)
             Demo.bad_params in
  cr_compiled c = ["insert"] /\
  Permutation (cr_compiled c) (cr_freed c) /\
  cr_instance c = None.
Proof.
  cbv zeta. split; [vm_compute; reflexivity|].
  apply (proj1 (@createInstance_all_or_nothing Demo.toy_pcre2 Demo.toy_core
                  (fst (generate_param_names 30)) (snd (generate_param_names 30))
                  Demo.bad_params)).
  vm_compute. reflexivity.
Defined.

(** Three statements and a ping through the plain instance: one INSERT
    and one SELECT are diverted, an UPDATE is not. *)
Lemma session_counters_count_statements_witness :
  let inst := Demo.plain_instance in
  let sess := Demo.session_of inst in
  let qs := [Demo.query "insert into t values (1)"; Demo.ping;
             Demo.query "update t set a = 2"; Demo.query "select 1"] in
  statements qs = 3 /\
  n_diverted (snd (route_all inst sess qs)) = 2 /\
  n_undiverted (snd (route_all inst sess qs)) = 1 /\
  n_diverted (snd (route_all inst sess qs)) +
  n_undiverted (snd (route_all inst sess qs)) = statements qs.
Proof.
  cbv zeta. split; [reflexivity|]. split; [reflexivity|]. split; [reflexivity|].
  apply (proj2 (proj2 (proj2
           (@session_counters_count_statements Demo.toy_pcre2 Demo.toy_core
              Demo.plain_instance (Demo.session_of Demo.plain_instance))))).
  - reflexivity.
  - reflexivity.
  - vm_compute. discriminate.
  - vm_compute. discriminate.
Defined.

(** C1 as stated fails.  The statement is a SELECT with a string of forty
    a's in it.  In the costly instance the regex of the second entry,
    [select], matches it, and the regex of the first entry, [(a+)+$],
    does not: so the second entry is the first matching one.  But
    matching the first regex is abandoned with an error, the forty a's
    being followed by a quote; the search stops there, and the buffer
    goes downstream without hints.  The same instance gives a statement
    without a's the hints of the second entry. *)
Lemma hints_for_first_match_counterexample :
  let inst := Demo.costly_instance in
  let sess := Demo.session_of inst in
  let q := Demo.query Demo.costly_sql in
  active sess <> 0 /\
  modutil_is_SQL q = true /\
  modutil_extract_SQL q = Some Demo.costly_sql /\
  pcre2_match (m_regex (Demo.entry "(a+)+$" ["server1"])) Demo.costly_sql (match_data sess)
    = -47 /\
  first_matching (m_mapping inst) sess Demo.costly_sql
    = Some (Demo.entry "select" ["server2"; "server3"]) /\
  rq_queue (routeQuery inst sess q) = q /\
  rq_queue (routeQuery inst sess q) <>
    {| data := data q;
       hint := fold_left (fun h s => hint_create_route h HINT_ROUTE_TO_NAMED_SERVER s)
                 ["server2"; "server3"] (hint q) |} /\
  rq_queue (routeQuery inst sess (Demo.query "select 1")) =
    {| data := Some "select 1"; hint := [(true, "server3"); (true, "server2")] |}.
Proof.
  cbv zeta. split; [vm_compute; discriminate|].
  repeat split; try reflexivity.
  vm_compute. discriminate.
Qed.

End NamedServerFilterFacts.

(* ===================================================================== *)
(** ** Properties of luafilter.c *)
(* ===================================================================== *)

Module LuaFilterFacts.
Import CLib LuaFilter.

Section SessionScript.
Context {rt : LuaRuntime}.

(** The protected call of the global routeQuery with the query text. *)
Lemma pcall_routeQuery (L : lua_State) (q : GWBUF) (fq : string) (nresults : Z) :
  lua_pcall (Some q) (lua_pushlstring (lua_getglobal L "routeQuery") fq) 1 nresults =
  match lua_apply (env L) (Some q) (lua_global (env L) "routeQuery") [LString fq] with
  | (env', inl err) => (LUA_ERRRUN, {| stack := err :: stack L; env := env' |})
  | (env', inr rets) =>
      (LUA_OK, {| stack := rev (adjust nresults rets) ++ stack L; env := env' |})
  end.
Proof. reflexivity. Qed.

(** With no values left on the stack of the global Lua state (or no
    global script at all), the value the session script's routeQuery
    returns decides what happens to the query: false sends the error
    packet to the client, a string (or a number) replaces the query,
    anything else, nil included, lets the query through as it is.  The
    global script adds at most a log message. *)
Lemma session_result_interpreted (inst : LUA_INSTANCE) (sess : LUA_SESSION)
    (q : GWBUF) (fq : string) (L : lua_State) (env' : lua_Env) (rets : list Value) :
  modutil_is_SQL q || modutil_is_SQL_prepare q = true ->
  modutil_get_SQL q = Some fq ->
  lua_state sess = Some L ->
  lua_apply (env L) (Some q) (lua_global (env L) "routeQuery") [LString fq]
    = (env', inr rets) ->
  (forall G, global_lua_state inst = Some G -> stack G = []) ->
  exists out logs,
    routeQuery inst sess q = Some out /\
    Forall is_log logs /\
    out_events out =
    match rets with
    | LBoolean false :: _ =>
        logs ++ [Free q;
                 ClientWrite (modutil_create_mysql_err_msg 1 0 1045 "28000" "Access denied.")]
    | LString s :: _ | LNumber s :: _ =>
        [Free q] ++ logs ++ [RouteDown (modutil_create_query s)]
    | _ => logs ++ [RouteDown q]
    end.
Proof.
  intros Hsql Hget HL Happ Hclean.
  unfold routeQuery. rewrite Hsql, Hget, HL.
  rewrite !pcall_routeQuery, Happ.
  destruct (global_lua_state inst) as [G|] eqn:HG.
  - specialize (Hclean G eq_refl).
    rewrite !pcall_routeQuery, Hclean.
    destruct (lua_apply (env G) (Some q) (lua_global (env G) "routeQuery") [LString fq])
      as [envG [err | retsG]].
    + (* the global call fails: one message logged, stack emptied *)
      destruct rets as [|[| [|] | t | t | f |] rest];
        eexists; eexists [Log _]; (split; [reflexivity|]);
        (split; [repeat constructor|]); reflexivity.
    + destruct rets as [|[| [|] | t | t | f |] rest];
        eexists; exists []; (split; [reflexivity|]);
        (split; [constructor|]); reflexivity.
  - destruct rets as [|[| [|] | t | t | f |] rest];
      eexists; exists []; (split; [reflexivity|]);
      (split; [constructor|]); reflexivity.
Qed.


End SessionScript.

Section AfterDiagnostic.
Import LuaDemo.
#[local] Existing Instance toy_lua.

(** C2 fails on the code.  Both scripts are configured; the session
    script's routeQuery returns no value for the statement.  Before
    [diagnostic] has been called the statement is routed as it is.  A
    successful call of [diagnostic] leaves the text the Lua function
    returned on the stack of the global Lua state; from then on the
    global half of [routeQuery], which asks [lua_pcall] for no result
    and then inspects the stack all the same, takes that text for a
    replacement query: the statement is freed and the diagnostic text is
    routed in its place. *)
Theorem nil_result_after_diagnostic_not_routed_unchanged :
  exists inst0 inst1 sess,
    created = Some inst0 /\
    opened inst0 = (inst1, Some sess) /\
    lua_apply "session.lua" (Some (Query "select 1")) (LFunction "routeQuery")
      [LString "select 1"] = ("session.lua", inr []) /\
    out_events <$> routeQuery inst1 sess (Query "select 1")
      = Some [RouteDown (Query "select 1")] /\
    out_events <$> routeQuery (fst (diagnostic inst1)) sess (Query "select 1")
      = Some [Free (Query "select 1"); RouteDown (Query "luafilter: all is well")].
Proof.
  do 3 eexists. repeat split; reflexivity.
Qed.

End AfterDiagnostic.

End LuaFilterFacts.

(* ===================================================================== *)
(** ** Properties of the worker messaging API *)
(* ===================================================================== *)

Module WorkerFacts.
Import Worker.

(** *** Posting *)

Lemma message_eta (m : WORKER_MESSAGE) :
  {| msg_id := msg_id m; arg1 := arg1 m; arg2 := arg2 m |} = m.
Proof. destruct m; reflexivity. Qed.

Lemma post_accepts (w : MXS_WORKER) (msg : mxs_worker_msg_id) (a1 a2 : Z) :
  fst (mxs_worker_post_message w msg a1 a2) =
  negb (closed (channel w)) && (length (records (channel w)) <? capacity (channel w))%nat.
Proof. reflexivity. Qed.

Lemma post_records (w : MXS_WORKER) (msg : mxs_worker_msg_id) (a1 a2 : Z) :
  records (channel (snd (mxs_worker_post_message w msg a1 a2))) =
  if fst (mxs_worker_post_message w msg a1 a2)
  then records (channel w) ++ [{| msg_id := msg; arg1 := a1; arg2 := a2 |}]
  else records (channel w).
Proof. reflexivity. Qed.

(** C3.  [mxs_worker_post_message] returns true if and only if the record
    was appended to the worker's channel; it returns false, leaving the
    contents of the channel as they were, when the channel is full or
    closed; and whatever the outcome it has issued exactly one write on
    the channel, so it neither waits for room nor tries again. *)
Theorem post_message_true_iff_enqueued (w : MXS_WORKER) (msg : mxs_worker_msg_id)
    (a1 a2 : Z) :
  let m := {| msg_id := msg; arg1 := a1; arg2 := a2 |} in
  let r := mxs_worker_post_message w msg a1 a2 in
  (fst r = true <-> records (channel (snd r)) = records (channel w) ++ [m]) /\
  (closed (channel w) = true \/
   (capacity (channel w) <= length (records (channel w)))%nat ->
   fst r = false /\ records (channel (snd r)) = records (channel w)) /\
  (closed (channel w) = false ->
   (length (records (channel w)) < capacity (channel w))%nat ->
   fst r = true) /\
  writes (channel (snd r)) = S (writes (channel w)).
Proof.
  intros m r. subst r.
  rewrite post_records, post_accepts.
  split; [|split; [|split]].
  - destruct (negb (closed (channel w)) &&
              (length (records (channel w)) <? capacity (channel w))%nat).
    + split; reflexivity.
    + split; [discriminate|].
      intros H. apply (f_equal (@length _)) in H.
      rewrite length_app in H. simpl in H. lia.
  - intros [Hc | Hfull].
    + rewrite Hc. simpl. split; reflexivity.
    + apply Nat.ltb_ge in Hfull. rewrite Hfull, andb_false_r. split; reflexivity.
  - intros Hc Hroom. apply Nat.ltb_lt in Hroom. rewrite Hc, Hroom. reflexivity.
  - reflexivity.
Qed.

(** A SHUTDOWN posted to a fresh worker of capacity 10 is enqueued. *)
Lemma post_message_true_iff_enqueued_witness :
  let w := mxs_worker_create 2 10 in
  fst (mxs_worker_post_message w MXS_WORKER_MSG_SHUTDOWN 0 0) = true /\
  records (channel (snd (mxs_worker_post_message w MXS_WORKER_MSG_SHUTDOWN 0 0))) =
  [{| msg_id := MXS_WORKER_MSG_SHUTDOWN; arg1 := 0; arg2 := 0 |}].
Proof.
  cbv zeta.
  pose proof (post_message_true_iff_enqueued (mxs_worker_create 2 10)
                MXS_WORKER_MSG_SHUTDOWN 0 0) as H.
  cbv zeta in H. destruct H as (Hiff & _ & Hroom & _).
  assert (Ht : fst (mxs_worker_post_message (mxs_worker_create 2 10)
                      MXS_WORKER_MSG_SHUTDOWN 0 0) = true)
    by (apply Hroom; [reflexivity | simpl; lia]).
  split; [exact Ht|]. exact (proj1 Hiff Ht).
Defined.

(** *** Broadcasting *)

Lemma broadcast_from_spec (workers : list MXS_WORKER) (msg : mxs_worker_msg_id)
    (a1 a2 : Z) (n : Z) :
  snd (broadcast_from workers msg a1 a2 n) =
    map (fun w => snd (mxs_worker_post_message w msg a1 a2)) workers /\
  fst (broadcast_from workers msg a1 a2 n) =
    n + Z.of_nat (length (List.filter
                            (fun w => fst (mxs_worker_post_message w msg a1 a2))
                            workers)).
Proof.
  revert n. induction workers as [|w rest IH]; intros n.
  - simpl. split; [reflexivity | lia].
  - cbn [broadcast_from fst snd map List.filter].
    destruct (IH (if fst (mxs_worker_post_message w msg a1 a2) then n + 1 else n))
      as [IH1 IH2].
    rewrite IH1, IH2. split; [reflexivity|].
    destruct (fst (mxs_worker_post_message w msg a1 a2)); cbn [length]; lia.
Qed.

(** C4.  [mxs_worker_broadcast_message] goes over the workers of the
    registry, posts to each of them once, with the same message id and
    the same two arguments, and returns the number of workers for which
    the post succeeded; the registry holds the same workers afterwards.
    In particular, when every worker's channel is open and has room, a
    broadcast to W workers returns W. *)
Theorem broadcast_counts_successful_posts (workers : list MXS_WORKER)
    (msg : mxs_worker_msg_id) (a1 a2 : Z) :
  let r := mxs_worker_broadcast_message workers msg a1 a2 in
  snd r = map (fun w => snd (mxs_worker_post_message w msg a1 a2)) workers /\
  fst r = Z.of_nat (length (List.filter
                              (fun w => fst (mxs_worker_post_message w msg a1 a2))
                              workers)) /\
  map id (snd r) = map id workers /\
  (Forall (fun w => closed (channel w) = false /\
                    (length (records (channel w)) < capacity (channel w))%nat)
          workers ->
   fst r = Z.of_nat (length workers)).
Proof.
  intros r. subst r. unfold mxs_worker_broadcast_message.
  destruct (broadcast_from_spec workers msg a1 a2 0) as [H1 H2].
  rewrite H1, H2. split; [reflexivity|]. split; [lia|]. split.
  - rewrite map_map. reflexivity.
  - intros Hall.
    assert (Hf : List.filter (fun w => fst (mxs_worker_post_message w msg a1 a2)) workers
                 = workers).
    { clear H1 H2. induction Hall as [|w rest [Hc Hroom] _ IH]; [reflexivity|].
      cbn [List.filter]. rewrite post_accepts.
      apply Nat.ltb_lt in Hroom. rewrite Hc, Hroom. cbn [negb andb].
      rewrite IH. reflexivity. }
    rewrite Hf. lia.
Qed.

(** A PING broadcast to four fresh workers returns 4. *)
Lemma broadcast_counts_successful_posts_witness :
  fst (mxs_worker_broadcast_message
         (map (fun i => mxs_worker_create i 10) [0; 1; 2; 3])
         MXS_WORKER_MSG_PING 0 0) = 4.
Proof.
  apply (proj2 (proj2 (proj2
           (broadcast_counts_successful_posts
              (map (fun i => mxs_worker_create i 10) [0; 1; 2; 3])
              MXS_WORKER_MSG_PING 0 0)))).
  repeat constructor.
Defined.

(** *** The event loop under interleaved posts *)

Lemma act_post (s : System) (from : thread_id) (m : WORKER_MESSAGE) :
  let ok := fst (mxs_worker_post_message (worker (wt s)) (msg_id m) (arg1 m) (arg2 m)) in
  batch (wt (act s (Post from m))) = batch (wt s) /\
  dispatched (wt (act s (Post from m))) = dispatched (wt s) /\
  exited (wt (act s (Post from m))) = exited (wt s) /\
  should_shutdown (worker (wt (act s (Post from m)))) = should_shutdown (worker (wt s)) /\
  records (channel (worker (wt (act s (Post from m))))) =
    (if ok then records (channel (worker (wt s))) ++ [m]
     else records (channel (worker (wt s)))) /\
  sent (act s (Post from m)) = (if ok then sent s ++ [(from, m)] else sent s).
Proof.
  cbn [act wt sent batch dispatched exited worker].
  rewrite post_records, message_eta. repeat split; reflexivity.
Qed.

Lemma dispatch_channel (w : MXS_WORKER) (m : WORKER_MESSAGE) :
  channel (dispatch w m) = channel w.
Proof. unfold dispatch. destruct (msg_id m); reflexivity. Qed.

Lemma act_fifo (s : System) (a : Action) : fifo s -> fifo (act s a).
Proof.
  unfold fifo. intros H. destruct a as [from m| |].
  - destruct (act_post s from m) as (Hb & Hd & _ & _ & Hr & Hs).
    rewrite Hb, Hd, Hr, Hs.
    destruct (fst (mxs_worker_post_message _ _ _ _)); [|exact H].
    rewrite map_app, H. simpl. rewrite <- !app_assoc. reflexivity.
  - cbn [act wt sent]. unfold worker_step.
    destruct (exited (wt s)); [exact H|].
    destruct (batch (wt s)) as [|m rest] eqn:Hb.
    + destruct (should_shutdown (worker (wt s)) || malformed (wt s)); simpl; [exact H|].
      destruct (torn (channel (worker (wt s)))) as [n|]; simpl.
      * rewrite H, firstn_skipn. reflexivity.
      * rewrite H. simpl. rewrite app_nil_r. reflexivity.
    + simpl. rewrite dispatch_channel, H. rewrite <- app_assoc. reflexivity.
  - exact H.
Qed.

Lemma run_fifo (schedule : list Action) (s : System) : fifo s -> fifo (run s schedule).
Proof.
  revert s. induction schedule as [|a rest IH]; intros s H; [exact H|].
  apply IH, act_fifo, H.
Qed.

Lemma posts_of_app (t : thread_id) (l1 l2 : list (thread_id * WORKER_MESSAGE)) :
  posts_of t (l1 ++ l2) = posts_of t l1 ++ posts_of t l2.
Proof. unfold posts_of. rewrite List.filter_app, map_app. reflexivity. Qed.

(** What a thread has had accepted is part of what it tried to post, in
    program order. *)
Lemma run_sent_program (t : thread_id) (schedule : list Action) (s : System) :
  exists accepted,
    posts_of t (sent (run s schedule)) = posts_of t (sent s) ++ accepted /\
    sublist accepted (program_of t schedule).
Proof.
  revert s. induction schedule as [|a rest IH]; intros s.
  - exists []. rewrite app_nil_r. split; [reflexivity|constructor].
  - cbn [run fold_left]. destruct (IH (act s a)) as (acc & Hacc & Hsub).
    fold (run (act s a) rest). rewrite Hacc.
    destruct a as [from m| |].
    + destruct (act_post s from m) as (_ & _ & _ & _ & _ & Hs). rewrite Hs.
      cbn [program_of].
      destruct (fst (mxs_worker_post_message _ _ _ _)).
      * rewrite posts_of_app. unfold posts_of at 2. cbn [List.filter fst].
        destruct (Nat.eqb from t).
        -- exists (m :: acc). rewrite <- app_assoc. split; [reflexivity|].
           constructor. exact Hsub.
        -- exists acc. cbn [map]. rewrite app_nil_r. split; [reflexivity|exact Hsub].
      * destruct (Nat.eqb from t).
        -- exists acc. split; [reflexivity|]. apply sublist_cons. exact Hsub.
        -- exists acc. split; [reflexivity|exact Hsub].
    + exists acc. split; [reflexivity|exact Hsub].
    + exists acc. split; [reflexivity|exact Hsub].
Qed.

Lemma boot_fifo (worker_id : Z) (cap : nat) : fifo (boot worker_id cap).
Proof. reflexivity. Qed.

(** C6.  Per-producer FIFO.  Whatever the interleaving of the posting
    threads and the worker's loop, the records the loop has dispatched
    are the first records accepted by the channel, in the order they were
    accepted.  So for every posting thread the messages it has posted
    successfully, which are some of the messages it tried to post, in
    program order, are dispatched in exactly the order they were sent:
    those dispatched so far are the leading ones, and all of them once
    the channel and the batch are empty.  Between different threads
    no order is guaranteed: two runs in which every thread posts the same
    messages can dispatch them in different orders. *)
Theorem single_poster_fifo :
  (forall (worker_id : Z) (cap : nat) (schedule : list Action) (t : thread_id),
     let s := run (boot worker_id cap) schedule in
     let k := length (dispatched (wt s)) in
     dispatched (wt s) = map snd (firstn k (sent s)) /\
     sublist (posts_of t (sent s)) (program_of t schedule) /\
     (exists later, posts_of t (sent s) = posts_of t (firstn k (sent s)) ++ later) /\
     (batch (wt s) = [] -> records (channel (worker (wt s))) = [] ->
      posts_of t (firstn k (sent s)) = posts_of t (sent s))) /\
  (exists (s1 s2 : list Action),
     (forall t, program_of t s1 = program_of t s2) /\
     steps_in s1 = steps_in s2 /\
     dispatched (wt (run (boot 0 10) s1)) <> dispatched (wt (run (boot 0 10) s2))).
Proof.
  split.
  - intros worker_id cap schedule t s k.
    pose proof (run_fifo schedule _ (boot_fifo worker_id cap)) as Hf.
    fold s in Hf. unfold fifo in Hf.
    assert (Hd : dispatched (wt s) = map snd (firstn k (sent s))).
    { rewrite <- firstn_map, Hf. subst k.
      rewrite firstn_app, firstn_all, Nat.sub_diag. simpl.
      rewrite app_nil_r. reflexivity. }
    split; [exact Hd|]. split; [|split].
    + destruct (run_sent_program t schedule (boot worker_id cap)) as (acc & Hacc & Hsub).
      fold s in Hacc. rewrite Hacc. exact Hsub.
    + exists (posts_of t (skipn k (sent s))).
      rewrite <- posts_of_app, firstn_skipn. reflexivity.
    + intros Hb Hr. rewrite Hb, Hr in Hf. simpl in Hf. rewrite app_nil_r in Hf.
      f_equal. apply firstn_all2. subst k. rewrite <- Hf, length_map. lia.
  - exists [Post 1%nat {| msg_id := MXS_WORKER_MSG_PING; arg1 := 0; arg2 := 0 |};
            Post 2%nat {| msg_id := MXS_WORKER_MSG_CALL; arg1 := 7; arg2 := 0 |};
            Step; Step; Step],
           [Post 2%nat {| msg_id := MXS_WORKER_MSG_CALL; arg1 := 7; arg2 := 0 |};
            Post 1%nat {| msg_id := MXS_WORKER_MSG_PING; arg1 := 0; arg2 := 0 |};
            Step; Step; Step].
    split; [|split].
    + intros t. cbn [program_of].
      destruct (Nat.eqb 1 t) eqn:E1, (Nat.eqb 2 t) eqn:E2; try reflexivity.
      apply Nat.eqb_eq in E1, E2. lia.
    + reflexivity.
    + vm_compute. discriminate.
Qed.

(** Three threads post to a worker of capacity 2: the third post finds
    the channel full; thread 1's two accepted messages are dispatched in
    the order it sent them. *)
Lemma single_poster_fifo_witness :
  let ping := {| msg_id := MXS_WORKER_MSG_PING; arg1 := 0; arg2 := 0 |} in
  let call n := {| msg_id := MXS_WORKER_MSG_CALL; arg1 := n; arg2 := 0 |} in
  let schedule := [Post 1%nat (call 1); Post 2%nat ping; Post 1%nat (call 2); Step;
                   Post 1%nat (call 3); Step; Step; Step; Step] in
  let s := run (boot 0 2) schedule in
  posts_of 1%nat (sent s) = [call 1; call 3] /\
  posts_of 1%nat (firstn (length (dispatched (wt s))) (sent s)) = posts_of 1%nat (sent s).
Proof.
  cbv zeta. split; [reflexivity|].
  apply (proj1 single_poster_fifo 0 2%nat); reflexivity.
Defined.

(** *** Shutdown *)

(** A post changes nothing of what the loop has read. *)
Lemma act_post_malformed (s : System) (from : thread_id) (m : WORKER_MESSAGE) :
  malformed (wt (act s (Post from m))) = malformed (wt s).
Proof. reflexivity. Qed.

(** A write that is not a whole record changes the channel only. *)
Lemma act_garble (s : System) :
  batch (wt (act s Garble)) = batch (wt s) /\
  dispatched (wt (act s Garble)) = dispatched (wt s) /\
  exited (wt (act s Garble)) = exited (wt s) /\
  should_shutdown (worker (wt (act s Garble))) = should_shutdown (worker (wt s)) /\
  malformed (wt (act s Garble)) = malformed (wt s).
Proof. repeat split; reflexivity. Qed.

(** Once the loop has been left nothing moves but the channel. *)
Lemma run_exited (schedule : list Action) (s : System) :
  exited (wt s) = true ->
  exited (wt (run s schedule)) = true /\
  dispatched (wt (run s schedule)) = dispatched (wt s) /\
  batch (wt (run s schedule)) = batch (wt s) /\
  should_shutdown (worker (wt (run s schedule))) = should_shutdown (worker (wt s)).
Proof.
  revert s. induction schedule as [|a rest IH]; intros s He; [auto|].
  cbn [run fold_left]. fold (run (act s a) rest).
  destruct a as [from m| |].
  - destruct (act_post s from m) as (Hb & Hd & Hx & Hs & _).
    destruct (IH (act s (Post from m))) as (H1 & H2 & H3 & H4); [congruence|].
    rewrite H1, H2, H3, H4. auto.
  - assert (Hstep : act s Step = s).
    { destruct s as [t l]. cbn [act wt sent] in *. unfold worker_step. rewrite He.
      reflexivity. }
    rewrite Hstep. apply IH. exact He.
  - destruct (act_garble s) as (Hb & Hd & Hx & Hs & _).
    destruct (IH (act s Garble)) as (H1 & H2 & H3 & H4); [congruence|].
    rewrite H1, H2, H3, H4. auto.
Qed.

Lemma dispatch_should_shutdown (w : MXS_WORKER) (m : WORKER_MESSAGE) :
  should_shutdown (dispatch w m) = is_shutdown m || should_shutdown w.
Proof. unfold dispatch, is_shutdown. destruct (msg_id m); reflexivity. Qed.

(** The flag is only ever set by the dispatch of a SHUTDOWN record,
    unless it was set at the outset ([early]), and the loop is only ever
    left with the flag set or after a read that met something that was
    not a whole record. *)
Lemma run_exit_cause (early : Prop) (schedule : list Action) (s : System) :
  (should_shutdown (worker (wt s)) = true ->
   early \/ existsb is_shutdown (dispatched (wt s)) = true) ->
  (exited (wt s) = true ->
   should_shutdown (worker (wt s)) = true \/ malformed (wt s) = true) ->
  (should_shutdown (worker (wt (run s schedule))) = true ->
   early \/ existsb is_shutdown (dispatched (wt (run s schedule))) = true) /\
  (exited (wt (run s schedule)) = true ->
   should_shutdown (worker (wt (run s schedule))) = true \/
   malformed (wt (run s schedule)) = true).
Proof.
  revert s. induction schedule as [|a rest IH]; intros s H1 H2; [auto|].
  cbn [run fold_left]. fold (run (act s a) rest). apply IH.
  - destruct a as [from m| |].
    + destruct (act_post s from m) as (_ & Hd & _ & Hs & _). rewrite Hd, Hs. exact H1.
    + cbn [act wt]. unfold worker_step.
      destruct (exited (wt s)); [exact H1|].
      destruct (batch (wt s)) as [|m rest'].
      * destruct (should_shutdown (worker (wt s))) eqn:Hs.
        -- cbn [orb worker dispatched]. intros _. apply H1. reflexivity.
        -- cbn [orb]. destruct (malformed (wt s)).
           ++ cbn [worker dispatched]. rewrite Hs. discriminate.
           ++ destruct (torn (channel (worker (wt s)))); simpl; rewrite Hs; discriminate.
      * simpl. rewrite dispatch_should_shutdown, existsb_app. simpl.
        rewrite orb_false_r. intros H.
        apply orb_true_iff in H as [H | H]; [right; rewrite H; apply orb_true_r|].
        destruct (H1 H) as [He | Hd]; [left; exact He | right; rewrite Hd; reflexivity].
    + destruct (act_garble s) as (_ & Hd & _ & Hs & _). rewrite Hd, Hs. exact H1.
  - destruct a as [from m| |].
    + destruct (act_post s from m) as (_ & _ & Hx & Hs & _).
      rewrite Hx, Hs, act_post_malformed. exact H2.
    + cbn [act wt]. unfold worker_step.
      destruct (exited (wt s)) eqn:Hx; [rewrite Hx; exact H2|].
      destruct (batch (wt s)) as [|m rest'].
      * destruct (should_shutdown (worker (wt s)) || malformed (wt s)) eqn:Hs.
        -- cbn [exited worker malformed]. intros _. apply orb_true_iff. exact Hs.
        -- destruct (torn (channel (worker (wt s)))); simpl; discriminate.
      * simpl. discriminate.
    + destruct (act_garble s) as (_ & _ & Hx & Hs & Hm). rewrite Hx, Hs, Hm. exact H2.
Qed.

(** With a SHUTDOWN record among the drained ones, or the flag already
    set, or a read that met something that was not a whole record, the
    loop dispatches the drained records, one per step and nothing else,
    and is left at the step after the last of them. *)
Lemma run_to_exit (schedule : list Action) (s : System) :
  exited (wt s) = false ->
  existsb is_shutdown (batch (wt s)) = true \/
  should_shutdown (worker (wt s)) = true \/ malformed (wt s) = true ->
  exists k,
    (k <= length (batch (wt s)))%nat /\
    dispatched (wt (run s schedule)) = dispatched (wt s) ++ firstn k (batch (wt s)) /\
    ((length (batch (wt s)) < steps_in schedule)%nat ->
     k = length (batch (wt s)) /\
     exited (wt (run s schedule)) = true /\
     (existsb is_shutdown (batch (wt s)) = true \/
      should_shutdown (worker (wt s)) = true ->
      should_shutdown (worker (wt (run s schedule))) = true)).
Proof.
  revert s. induction schedule as [|a rest IH]; intros s Hx Hsd.
  - exists 0%nat. simpl. rewrite app_nil_r. split; [lia|]. split; [reflexivity|].
    unfold steps_in. simpl. lia.
  - cbn [run fold_left]. fold (run (act s a) rest).
    destruct a as [from m| |].
    + destruct (act_post s from m) as (Hb & Hd & Hx' & Hs & _).
      pose proof (act_post_malformed s from m) as Hm.
      destruct (IH (act s (Post from m))) as (k & Hk & Hdis & Hfin);
        [congruence | rewrite Hb, Hs, Hm; exact Hsd |].
      rewrite Hb, Hd, Hs in *. exists k. split; [exact Hk|]. split; [exact Hdis|].
      unfold steps_in in *. cbn [List.filter]. exact Hfin.
    + unfold steps_in. cbn [List.filter length]. fold (steps_in rest).
      destruct (batch (wt s)) as [|m b] eqn:Hb.
      * (* nothing left to dispatch: the loop is left *)
        assert (Hor : should_shutdown (worker (wt s)) || malformed (wt s) = true).
        { destruct Hsd as [Hsd | [Hsd | Hsd]]; [discriminate | |];
            rewrite Hsd; [reflexivity | apply orb_true_r]. }
        assert (Hstep : exited (wt (act s Step)) = true /\
                        dispatched (wt (act s Step)) = dispatched (wt s) /\
                        should_shutdown (worker (wt (act s Step))) =
                          should_shutdown (worker (wt s))).
        { cbn [act wt]. unfold worker_step. rewrite Hx, Hb, Hor. auto. }
        destruct Hstep as (Hx1 & Hd1 & Hs1).
        destruct (run_exited rest (act s Step) Hx1) as (R1 & R2 & _ & R4).
        exists 0%nat. rewrite firstn_O, app_nil_r.
        split; [simpl; lia|]. split; [congruence|]. intros _.
        split; [reflexivity|]. split; [exact R1|].
        intros [Hq | Hq]; [discriminate | congruence].
      * assert (Hstep : exited (wt (act s Step)) = false /\
                        batch (wt (act s Step)) = b /\
                        dispatched (wt (act s Step)) = dispatched (wt s) ++ [m] /\
                        should_shutdown (worker (wt (act s Step))) =
                          is_shutdown m || should_shutdown (worker (wt s)) /\
                        malformed (wt (act s Step)) = malformed (wt s)).
        { cbn [act wt]. unfold worker_step. rewrite Hx, Hb. simpl.
          rewrite dispatch_should_shutdown. auto. }
        destruct Hstep as (Hx1 & Hb1 & Hd1 & Hs1 & Hm1).
        destruct (IH (act s Step) Hx1) as (k & Hk & Hdis & Hfin).
        { rewrite Hb1, Hs1, Hm1. simpl in Hsd.
          destruct (is_shutdown m); simpl in *;
            [right; left; reflexivity | exact Hsd]. }
        rewrite Hb1, Hd1, Hs1 in *.
        exists (S k). cbn [firstn length]. split; [lia|]. split.
        -- rewrite Hdis, <- app_assoc. reflexivity.
        -- intros Hlt. destruct Hfin as (-> & Hfx & Hfs); [lia|].
           split; [reflexivity|]. split; [exact Hfx|].
           intros Hq. apply Hfs. cbn [existsb] in Hq.
           destruct (is_shutdown m); cbn [orb] in *; [right; reflexivity | exact Hq].
    + destruct (act_garble s) as (Hb & Hd & Hx' & Hs & Hm).
      destruct (IH (act s Garble)) as (k & Hk & Hdis & Hfin);
        [congruence | rewrite Hb, Hs, Hm; exact Hsd |].
      rewrite Hb, Hd, Hs in *. exists k. split; [exact Hk|]. split; [exact Hdis|].
      unfold steps_in in *. cbn [List.filter]. exact Hfin.
Qed.

(** A drain of a torn channel takes the records in front of the tear. *)
Lemma drain_torn (s : System) (n : nat) :
  exited (wt s) = false ->
  batch (wt s) = [] ->
  should_shutdown (worker (wt s)) = false ->
  malformed (wt s) = false ->
  torn (channel (worker (wt s))) = Some n ->
  exited (wt (act s Step)) = false /\
  malformed (wt (act s Step)) = true /\
  batch (wt (act s Step)) = firstn n (records (channel (worker (wt s)))) /\
  dispatched (wt (act s Step)) = dispatched (wt s).
Proof.
  intros Hx Hb Hs Hm Ht. cbn [act wt]. unfold worker_step.
  rewrite Hx, Hb, Hs, Hm, Ht. repeat split; reflexivity.
Qed.

(** C7 (amended).  The event loop of a worker ends in one of three ways,
    and in no other: a SHUTDOWN record has been drained and dispatched,
    which sets should_shutdown; or should_shutdown was set from outside
    before the worker was started; or the loop has read something that is
    not a whole record.  So for a worker as the registry creates it, and
    as long as no malformed record is met, draining a SHUTDOWN record is
    the only way the loop ends.  A worker started with should_shutdown
    set dispatches nothing and leaves the loop at its first step.  A
    worker that drains a torn channel dispatches the records in front of
    the tear and then leaves the loop.  Once a SHUTDOWN record has been
    drained, the loop dispatches the records of the batch it was drained
    with, setting should_shutdown on the way, and is then left, at which
    point the thread can be joined; nothing that is enqueued after the
    batch was drained is dispatched, then or ever after. *)
Theorem shutdown_is_terminal :
  (forall (w : MXS_WORKER) (schedule : list Action),
     let s := run (boot_worker w) schedule in
     exited (wt s) = true ->
     (should_shutdown (worker (wt s)) = true /\
      exists m, In m (dispatched (wt s)) /\ msg_id m = MXS_WORKER_MSG_SHUTDOWN) \/
     should_shutdown w = true \/
     malformed (wt s) = true) /\
  (forall (worker_id : Z) (cap : nat) (schedule : list Action),
     let s := run (boot worker_id cap) schedule in
     exited (wt s) = true ->
     malformed (wt s) = false ->
     should_shutdown (worker (wt s)) = true /\
     exists m, In m (dispatched (wt s)) /\ msg_id m = MXS_WORKER_MSG_SHUTDOWN) /\
  (forall (w : MXS_WORKER) (schedule : list Action),
     should_shutdown w = true ->
     let s := run (boot_worker w) schedule in
     dispatched (wt s) = [] /\
     ((0 < steps_in schedule)%nat -> exited (wt s) = true)) /\
  (forall (s : System) (n : nat) (schedule : list Action),
     exited (wt s) = false ->
     batch (wt s) = [] ->
     should_shutdown (worker (wt s)) = false ->
     malformed (wt s) = false ->
     torn (channel (worker (wt s))) = Some n ->
     let front := firstn n (records (channel (worker (wt s)))) in
     let s' := run s (Step :: schedule) in
     (exists k, dispatched (wt s') = dispatched (wt s) ++ firstn k front) /\
     ((length front < steps_in schedule)%nat ->
      dispatched (wt s') = dispatched (wt s) ++ front /\
      exited (wt s') = true)) /\
  (forall (s : System) (schedule : list Action),
     exited (wt s) = false ->
     existsb is_shutdown (batch (wt s)) = true ->
     let s' := run s schedule in
     (exists k, dispatched (wt s') = dispatched (wt s) ++ firstn k (batch (wt s))) /\
     ((length (batch (wt s)) < steps_in schedule)%nat ->
      dispatched (wt s') = dispatched (wt s) ++ batch (wt s) /\
      should_shutdown (worker (wt s')) = true /\
      exited (wt s') = true)) /\
  (forall (s : System) (schedule : list Action),
     exited (wt s) = true ->
     exited (wt (run s schedule)) = true /\
     dispatched (wt (run s schedule)) = dispatched (wt s)).
Proof.
  assert (Hcause : forall (w : MXS_WORKER) (schedule : list Action),
            let s := run (boot_worker w) schedule in
            exited (wt s) = true ->
            (should_shutdown (worker (wt s)) = true /\
             exists m, In m (dispatched (wt s)) /\ msg_id m = MXS_WORKER_MSG_SHUTDOWN) \/
            should_shutdown w = true \/
            malformed (wt s) = true).
  { intros w schedule s Hx.
    destruct (run_exit_cause (should_shutdown w = true) schedule (boot_worker w))
      as [H1 H2]; [intros H; left; exact H | discriminate |].
    fold s in H1, H2.
    destruct (H2 Hx) as [Hs | Hm]; [|right; right; exact Hm].
    destruct (H1 Hs) as [He | Hd]; [right; left; exact He|].
    left. split; [exact Hs|].
    destruct (proj1 (existsb_exists _ _) Hd) as (m & Hin & Hm).
    exists m. split; [exact Hin|].
    unfold is_shutdown in Hm. destruct (msg_id m); try discriminate. reflexivity. }
  split; [exact Hcause|]. split; [|split; [|split; [|split]]].
  - intros worker_id cap schedule s Hx Hm.
    destruct (Hcause (mxs_worker_create worker_id cap) schedule Hx) as [H | [H | H]].
    + exact H.
    + discriminate H.
    + change (malformed (wt s) = true) in H. congruence.
  - intros w schedule Hw s.
    destruct (run_to_exit schedule (boot_worker w)) as (k & Hk & Hdis & Hfin);
      [reflexivity | right; left; exact Hw |].
    fold s in Hdis, Hfin. cbn [boot_worker wt mxs_worker_start batch dispatched] in *.
    split.
    + rewrite Hdis. destruct k; reflexivity.
    + intros Hlt. destruct (Hfin Hlt) as (_ & Hfx & _). exact Hfx.
  - intros s n schedule Hx Hb Hs Hm Ht front s'.
    destruct (drain_torn s n Hx Hb Hs Hm Ht) as (Hx1 & Hm1 & Hb1 & Hd1).
    destruct (run_to_exit schedule (act s Step) Hx1) as (k & Hk & Hdis & Hfin);
      [right; right; exact Hm1|].
    rewrite Hb1, Hd1 in *. fold front in Hk, Hdis, Hfin.
    change (run (act s Step) schedule) with s' in Hdis, Hfin.
    split; [exists k; exact Hdis|].
    intros Hlt. destruct (Hfin Hlt) as (-> & Hfx & _).
    rewrite firstn_all in Hdis. auto.
  - intros s schedule Hx Hb s'.
    destruct (run_to_exit schedule s Hx (or_introl Hb)) as (k & Hk & Hdis & Hfin).
    fold s' in Hdis, Hfin. split; [exists k; exact Hdis|].
    intros Hlt. destruct (Hfin Hlt) as (-> & Hfx & Hfs).
    rewrite firstn_all in Hdis. split; [exact Hdis|]. split; [|exact Hfx].
    apply Hfs. left. exact Hb.
  - intros s schedule Hx.
    destruct (run_exited schedule s Hx) as (H1 & H2 & _). auto.
Qed.

(** A worker is sent a PING, a SHUTDOWN and a CALL, wakes up, and is sent
    another PING while it works through the batch: the three drained
    records are dispatched, the loop is left, the late PING never is. *)
Lemma shutdown_is_terminal_witness :
  let ping := {| msg_id := MXS_WORKER_MSG_PING; arg1 := 0; arg2 := 0 |} in
  let stop := {| msg_id := MXS_WORKER_MSG_SHUTDOWN; arg1 := 0; arg2 := 0 |} in
  let call := {| msg_id := MXS_WORKER_MSG_CALL; arg1 := 7; arg2 := 0 |} in
  let drained := run (boot 2 10) [Post 1%nat ping; Post 1%nat stop; Post 2%nat call; Step] in
  let final := run drained [Post 1%nat ping; Step; Step; Step; Step; Step] in
  batch (wt drained) = [ping; stop; call] /\
  dispatched (wt final) = [ping; stop; call] /\
  should_shutdown (worker (wt final)) = true /\
  exited (wt final) = true.
Proof.
  cbv zeta. split; [reflexivity|].
  apply (proj1 (proj2 (proj2 (proj2 (proj2 shutdown_is_terminal))))
           (run (boot 2 10)
              [Post 1%nat {| msg_id := MXS_WORKER_MSG_PING; arg1 := 0; arg2 := 0 |};
               Post 1%nat {| msg_id := MXS_WORKER_MSG_SHUTDOWN; arg1 := 0; arg2 := 0 |};
               Post 2%nat {| msg_id := MXS_WORKER_MSG_CALL; arg1 := 7; arg2 := 0 |};
               Step])).
  - reflexivity.
  - reflexivity.
  - vm_compute. lia.
Defined.

(** C7 as stated fails: the loop of a worker ends in two more ways.  A
    worker whose should_shutdown was set before the start leaves the loop
    at its first step; the PING it was sent is never dispatched, and no
    SHUTDOWN record was ever posted.  A worker whose channel holds
    something that is not a whole record behind a PING dispatches the
    PING and leaves the loop, should_shutdown still clear. *)
Lemma shutdown_is_terminal_counterexample :
  let ping := {| msg_id := MXS_WORKER_MSG_PING; arg1 := 0; arg2 := 0 |} in
  let early := run (boot_worker (set_should_shutdown (mxs_worker_create 2 10)))
                 [Post 1%nat ping; Step; Step] in
  let bug := run (boot 2 10) [Post 1%nat ping; Garble; Post 1%nat ping;
                              Step; Step; Step] in
  (exited (wt early) = true /\
   dispatched (wt early) = [] /\
   map snd (sent early) = [ping]) /\
  (exited (wt bug) = true /\
   dispatched (wt bug) = [ping] /\
   should_shutdown (worker (wt bug)) = false /\
   map snd (sent bug) = [ping; ping]) /\
  ~ (forall (w : MXS_WORKER) (schedule : list Action),
       let s := run (boot_worker w) schedule in
       exited (wt s) = true ->
       exists m, In m (dispatched (wt s)) /\ msg_id m = MXS_WORKER_MSG_SHUTDOWN).
Proof.
  cbv zeta. split; [repeat split; reflexivity|]. split; [repeat split; reflexivity|].
  intros H.
  destruct (H (set_should_shutdown (mxs_worker_create 2 10)) [Step] eq_refl)
    as (m & Hin & _).
  exact Hin.
Qed.

End WorkerFacts.

(* ===================================================================== *)
(** ** Further properties of namedserverfilter.cc *)
(* ===================================================================== *)

Module NamedServerFilterExtra.
Import CLib NamedServerFilter Shapes NamedServerFilterMore NamedServerFilterFacts.

(** *** Server lists *)

Lemma strchr_string_of_list (l : list ascii) (d : ascii) :
  Forall (fun c => Ascii.eqb c d = false) l ->
  strchr (string_of_list_ascii l) d = false.
Proof.
  induction 1 as [|c l Hc _ IH]; simpl; [reflexivity|]. rewrite Hc. exact IH.
Qed.

Lemma string_of_list_nonempty (l : list ascii) :
  l <> [] -> string_of_list_ascii l <> "".
Proof. destruct l; [congruence | discriminate]. Qed.

(** Every token is a non-empty run of bytes without the delimiter. *)
Lemma strtok_from_tokens (s : string) (d : ascii) (cur : list ascii) :
  Forall (fun c => Ascii.eqb c d = false) cur ->
  Forall (token d) (strtok_from s d cur).
Proof.
  revert cur. induction s as [|c rest IH]; intros cur Hcur.
  - simpl. destruct cur as [|a cur']; [constructor|].
    constructor; [|constructor]. split.
    + apply string_of_list_nonempty. simpl. destruct (rev cur'); discriminate.
    + apply strchr_string_of_list. apply Forall_rev. exact Hcur.
  - simpl. destruct (Ascii.eqb c d) eqn:Hc.
    + destruct cur as [|a cur']; [apply IH; constructor|].
      constructor; [|apply IH; constructor]. split.
      * apply string_of_list_nonempty. simpl. destruct (rev cur'); discriminate.
      * apply strchr_string_of_list. apply Forall_rev. exact Hcur.
    + apply IH. constructor; assumption.
Qed.

(** No token is found exactly when nothing but delimiters is left and no
    token has been begun. *)
Lemma strtok_from_nil (s : string) (d : ascii) (cur : list ascii) :
  strtok_from s d cur = [] <-> cur = [] /\ all_chars (fun c => Ascii.eqb c d) s = true.
Proof.
  revert cur. induction s as [|c rest IH]; intros cur; simpl.
  - destruct cur; split; intros H; try tauto; try discriminate.
    destruct H; discriminate.
  - destruct (Ascii.eqb c d); simpl.
    + destruct cur as [|a cur'].
      * rewrite IH. tauto.
      * split; [discriminate | intros [H _]; discriminate].
    + rewrite IH. split; [intros [H _]; discriminate | intros [_ H]; discriminate].
Qed.

Lemma append_cons (c : ascii) (t s : string) : String c t +:+ s = String c (t +:+ s).
Proof. reflexivity. Qed.

Lemma append_empty_r (t : string) : t +:+ "" = t.
Proof.
  induction t as [|c t IH]; [reflexivity|]. rewrite append_cons, IH. reflexivity.
Qed.

Lemma strtok_from_app (t s : string) (d : ascii) (cur : list ascii) :
  strchr t d = false ->
  strtok_from (t +:+ s) d cur = strtok_from s d (rev (list_ascii_of_string t) ++ cur).
Proof.
  revert cur. induction t as [|c t IH]; intros cur Hn; [reflexivity|].
  rewrite append_cons. simpl in Hn. cbn [strtok_from list_ascii_of_string rev].
  destruct (Ascii.eqb c d); [discriminate|].
  rewrite IH by exact Hn. rewrite <- app_assoc. reflexivity.
Qed.


Lemma strtok_from_whole (t : string) (d : ascii) :
  token d t -> strtok_from t d [] = [t].
Proof.
  intros [Hne Hn].
  rewrite <- (append_empty_r t) at 1.
  rewrite strtok_from_app by exact Hn. simpl. rewrite app_nil_r.
  destruct (rev (list_ascii_of_string t)) as [|a l] eqn:Hr.
  - destruct t; [congruence|]. simpl in Hr. destruct (rev (list_ascii_of_string t)); discriminate.
  - rewrite <- Hr, rev_involutive, string_of_list_ascii_of_string. reflexivity.
Qed.

Lemma strtok_all_join (d : ascii) (names : list string) :
  Forall (token d) names -> strtok_all (join d names) d = names.
Proof.
  unfold strtok_all. induction 1 as [|t rest Ht Hrest IH]; [reflexivity|].
  destruct rest as [|u rest'].
  - simpl. apply strtok_from_whole. exact Ht.
  - change (join d (t :: u :: rest')) with (t +:+ String d (join d (u :: rest'))).
    destruct Ht as [Hne Hn].
    rewrite strtok_from_app by exact Hn. rewrite app_nil_r.
    cbn [strtok_from]. rewrite Ascii.eqb_refl.
    destruct (rev (list_ascii_of_string t)) as [|a l] eqn:Hr.
    + destruct t; [congruence|]. simpl in Hr.
      destruct (rev (list_ascii_of_string t)); discriminate.
    + rewrite <- Hr, rev_involutive, string_of_list_ascii_of_string, IH. reflexivity.
Qed.

Section Servers.
Context {re : Pcre2}.

(** X1.  [add_servers] returns the number of names it appends to the
    entry's server list, leaves the servers already there in front, and
    every name it appends is non-empty and free of commas. *)
Theorem add_servers_appends_tokens (e : RegexToServers) (server_names : string) :
  let r := add_servers e server_names in
  exists names,
    m_servers (snd r) = m_servers e ++ names /\
    fst r = Z.of_nat (length names) /\
    Forall (token ",") names /\
    m_match (snd r) = m_match e /\ m_regex (snd r) = m_regex e.
Proof.
  exists (strtok_all server_names ","). repeat split.
  apply strtok_from_tokens. constructor.
Qed.

(** X2.  [add_servers] finds no server exactly when the string holds
    nothing but commas (the empty string included); such a server list
    is what [form_regex_server_mapping] reports as an error. *)
Theorem add_servers_none_iff_only_commas (e : RegexToServers) (server_names : string) :
  fst (add_servers e server_names) = 0 <->
  all_chars (fun c => Ascii.eqb c ",") server_names = true.
Proof.
  unfold add_servers, strtok_all. cbn [fst].
  pose proof (strtok_from_nil server_names "," []) as H.
  destruct (strtok_from server_names "," []) as [|n ns].
  - simpl. split; [intros _; apply H; reflexivity | reflexivity].
  - split.
    + intros Hz. cbn [length] in Hz. lia.
    + intros Hall. pose proof (proj2 H (conj eq_refl Hall)) as Hx. discriminate Hx.
Qed.

(** X3.  Writing server names with commas in between and handing the
    result to [add_servers] gives back exactly those names, in order:
    for names that are non-empty and free of commas, [add_servers] on an
    entry without servers is the inverse of joining. *)
Theorem add_servers_of_joined_names (e : RegexToServers) (names : list string) :
  Forall (token ",") names ->
  m_servers e = [] ->
  m_servers (snd (add_servers e (join "," names))) = names /\
  fst (add_servers e (join "," names)) = Z.of_nat (length names).
Proof.
  intros Hn He. unfold add_servers. cbn [fst snd m_servers].
  rewrite He, strtok_all_join by exact Hn. split; reflexivity.
Qed.

End Servers.

(** *** The 'source' parameter and new sessions *)

Lemma strchr_true_count (s : string) (c : ascii) :
  strchr s c = true -> 1 <= count_char c s.
Proof.
  induction s as [|d rest IH]; simpl; [discriminate|].
  pose proof (count_char_nonneg c rest) as Hnn.
  destruct (Ascii.eqb d c); [lia|]. intros H. specialize (IH H). lia.
Qed.

Lemma count_two_chars (a b : ascii) (s : string) :
  a <> b -> count_char a s + count_char b s <= strlen s.
Proof.
  intros Hab. unfold strlen. induction s as [|c rest IH]; simpl; [lia|].
  destruct (Ascii.eqb c a) eqn:Ea, (Ascii.eqb c b) eqn:Eb; try lia.
  apply Ascii.eqb_eq in Ea, Eb. congruence.
Qed.

(** A host of the accepted shape has at most twelve wildcards. *)
Lemma wildcards_bound (host : string) :
  source_shape host -> 0 <= count_char "%" host <= 12.
Proof.
  intros (Hdots & Hp & Hd & _ & Hlen & _).
  split; [apply count_char_nonneg|].
  destruct host as [|c rest]; [simpl in Hdots; lia|].
  simpl in Hp, Hd, Hdots |- *.
  destruct (Ascii.eqb c "%") eqn:E1; [apply Ascii.eqb_eq in E1; congruence|].
  destruct (Ascii.eqb c ".") eqn:E2; [apply Ascii.eqb_eq in E2; congruence|].
  pose proof (count_two_chars "%" "." rest ltac:(discriminate)) as H.
  unfold strlen, INET_ADDRSTRLEN in *. simpl in Hlen. lia.
Qed.

Section Sources.
Context {re : Pcre2} {core : MaxScaleCore}.

(** What an accepted 'source' host is recorded as. *)
Lemma set_source_address_accepted (host : string) (src : REGEXHINT_SOURCE_HOST) :
  set_source_address host = Some src ->
  address src <> None ->
  source_shape host /\
  address src = Some host /\
  netmask src = 32 - 8 * count_char "%" host /\
  (strchr host "%" = false -> ipv4 src = 0) /\
  (strchr host "%" = true ->
   exists a, setipaddress (fst (format_loop host 0 32)) = Some a /\
             ipv4 src = Z.land a 16777215).
Proof.
  unfold set_source_address. intros H Ha.
  destruct (validate_ip_address host) eqn:Ev; simpl in H;
    [|injection H as <-; simpl in Ha; congruence].
  pose proof (proj1 (validate_ip_address_spec host) Ev) as Hshape.
  split; [exact Hshape|].
  destruct (strchr host "%") eqn:Ep; simpl in H.
  - pose proof (format_loop_netmask host 0 32) as Hnm.
    destruct Hshape as (Hd & Hrest). specialize (Hnm ltac:(lia)).
    pose proof (strchr_true_count _ _ Ep) as Hone.
    destruct (setipaddress (fst (format_loop host 0 32))) as [a|];
      [destruct (strlen (fst (format_loop host 0 32)) =? 0); simpl in H|];
      injection H as <-; simpl in *; try congruence.
    repeat split; auto; try discriminate.
    intros _. exists a. split; [reflexivity|].
    destruct (snd (format_loop host 0 32) <? 32) eqn:Elt; [reflexivity|].
    apply Z.ltb_ge in Elt. lia.
  - injection H as <-. simpl. rewrite (strchr_count _ _ Ep).
    repeat split; auto; discriminate.
Qed.

(** X4.  The netmask of an accepted 'source' host is 32 less 8 for each
    of its at most twelve wildcards, so a multiple of 8 between -64 and
    32 (not only 32, 24, 16 or 8); it is 32 exactly when the host has no
    wildcard. *)
Theorem accepted_netmask_range (host : string) (src : REGEXHINT_SOURCE_HOST) :
  set_source_address host = Some src ->
  address src <> None ->
  (exists k, 0 <= k <= 12 /\ netmask src = 32 - 8 * k) /\
  (netmask src = 32 <-> strchr host "%" = false).
Proof.
  intros H Ha.
  destruct (set_source_address_accepted host src H Ha) as (Hshape & _ & Hnm & _).
  pose proof (wildcards_bound host Hshape) as Hk.
  split; [exists (count_char "%" host); split; assumption|].
  rewrite Hnm. split.
  - intros H32. destruct (strchr host "%") eqn:Ep; [|reflexivity].
    pose proof (strchr_true_count _ _ Ep). lia.
  - intros Ep. rewrite (strchr_count _ _ Ep). lia.
Qed.

(** X6.  With an accepted 'source' host without wildcards, and no user
    restriction, a session is active exactly when the client's remote
    address string equals the host string. *)
Theorem exact_source_admits_equal_remote (inst : RegexHintInst) (host : string)
    (src : REGEXHINT_SOURCE_HOST) (session : MXS_SESSION) (r : string) :
  set_source_address host = Some src ->
  address src <> None ->
  strchr host "%" = false ->
  m_source inst = Some src ->
  m_user inst = "" ->
  remote session = Some r ->
  active (newSession inst session) = if String.eqb host r then 1 else 0.
Proof.
  intros H Ha Ep Hsrc Huser Hr.
  destruct (set_source_address_accepted host src H Ha) as (_ & Haddr & Hnm & _).
  rewrite (strchr_count _ _ Ep) in Hnm.
  unfold newSession. cbn [active]. rewrite Hsrc, Haddr, Hr, Huser.
  unfold check_source_host. rewrite Haddr, Hnm. reflexivity.
Qed.

(** X7.  With an accepted 'source' host that has wildcards, whether a
    client is admitted never depends on its remote address string; with
    exactly one wildcard the client is admitted exactly when the low 24
    bits of its address are those of the address the formatted host
    resolves to. *)
Theorem wildcard_source_compares_addresses (host : string)
    (src : REGEXHINT_SOURCE_HOST) :
  set_source_address host = Some src ->
  address src <> None ->
  strchr host "%" = true ->
  (forall r1 r2 ip, check_source_host src r1 ip = check_source_host src r2 ip) /\
  (count_char "%" host = 1 ->
   exists a,
     setipaddress (fst (format_loop host 0 32)) = Some a /\
     forall r ip,
       check_source_host src r ip =
       if Z.land ip 16777215 =? Z.land a 16777215 then 1 else 0).
Proof.
  intros H Ha Ep.
  destruct (set_source_address_accepted host src H Ha) as (_ & _ & Hnm & _ & Hw).
  destruct (Hw Ep) as (a & Hres & Hip).
  pose proof (strchr_true_count _ _ Ep) as Hone.
  split.
  - intros r1 r2 ip. unfold check_source_host.
    destruct (netmask src =? 32) eqn:E32; [apply Z.eqb_eq in E32; lia|].
    reflexivity.
  - intros Hk. exists a. split; [exact Hres|]. intros r ip.
    unfold check_source_host. rewrite Hnm, Hk, Hip. reflexivity.
Qed.

Lemma check_source_host_flag (src : REGEXHINT_SOURCE_HOST) (r : string) (ip : Z) :
  check_source_host src r ip = 0 \/ check_source_host src r ip = 1.
Proof.
  unfold check_source_host.
  destruct (netmask src <? 32).
  - destruct (_ =? ipv4 src); auto.
  - destruct (netmask src =? 32); auto.
    destruct (address src) as [a|]; auto. destruct (String.eqb a r); auto.
Qed.

(** X8.  The [active] flag of a new session is 0 or 1.  It is 0 whenever
    a user is configured and the session belongs to another user,
    whatever the source check says; and without a configured source it
    is 1 for every session that passes the user check. *)
Theorem newSession_active_flag (inst : RegexHintInst) (session : MXS_SESSION) :
  (active (newSession inst session) = 0 \/ active (newSession inst session) = 1) /\
  (forall u, m_user inst <> "" -> user session = Some u -> u <> m_user inst ->
             active (newSession inst session) = 0) /\
  (m_source inst = None ->
   m_user inst = "" \/ user session = None \/ user session = Some (m_user inst) ->
   active (newSession inst session) = 1).
Proof.
  unfold newSession. cbn [active].
  assert (Hlen : forall s : string, s <> "" -> (strlen s =? 0) = false).
  { intros s Hs. destruct s; [congruence|]. reflexivity. }
  split; [|split].
  - assert (Hsrc : forall v, (v = 0 \/ v = 1) ->
             (if negb (strlen (m_user inst) =? 0)
              then match user session with
                   | Some u => if negb (String.eqb u (m_user inst)) then 0 else v
                   | None => v
                   end
              else v) = 0 \/
             (if negb (strlen (m_user inst) =? 0)
              then match user session with
                   | Some u => if negb (String.eqb u (m_user inst)) then 0 else v
                   | None => v
                   end
              else v) = 1).
    { intros v Hv. destruct (negb _); [|exact Hv].
      destruct (user session) as [u|]; [|exact Hv].
      destruct (negb _); [left; reflexivity | exact Hv]. }
    apply Hsrc.
    destruct (m_source inst) as [src|]; [|right; reflexivity].
    destruct (address src); [|right; reflexivity].
    destruct (remote session); [|right; reflexivity].
    apply check_source_host_flag.
  - intros u Hne Hu Hdiff. rewrite (Hlen _ Hne), Hu. simpl.
    destruct (String.eqb u (m_user inst)) eqn:E; [|reflexivity].
    apply String.eqb_eq in E. congruence.
  - intros Hsrc Hok. rewrite Hsrc.
    destruct Hok as [Hu | [Hu | Hu]].
    + rewrite Hu. reflexivity.
    + rewrite Hu. destruct (negb _); reflexivity.
    + rewrite Hu, String.eqb_refl. destruct (negb _); reflexivity.
Qed.

End Sources.

(** The bytes the copying loop writes stand for the bytes it reads. *)
Lemma format_loop_formats (p : string) (bytes nm : Z) :
  bytes + count_char "." p <= 3 ->
  Forall2 formats (list_ascii_of_string p)
    (list_ascii_of_string (fst (format_loop p bytes nm))).
Proof.
  revert bytes nm. induction p as [|c rest IH]; intros bytes nm Hb; simpl.
  - constructor.
  - simpl in Hb. pose proof (count_char_nonneg "." rest) as Hnn.
    destruct (Ascii.eqb c ".") eqn:Edot.
    + destruct (bytes <=? 3) eqn:E3; [|apply Z.leb_gt in E3; lia].
      apply Ascii.eqb_eq in Edot. subst c. simpl.
      constructor; [left; split; [discriminate|reflexivity]|]. apply IH. lia.
    + destruct (bytes <=? 3) eqn:E3; [|apply Z.leb_gt in E3; lia].
      destruct (Ascii.eqb c "%") eqn:Ep; simpl.
      * apply Ascii.eqb_eq in Ep. subst c.
        constructor; [|apply IH; lia].
        right. split; [reflexivity|]. destruct (bytes =? 3); auto.
      * constructor; [|apply IH; lia].
        left. split; [|reflexivity]. intros ->. discriminate.
Qed.

(** X5.  For a 'source' host of the accepted shape, the host name handed
    to [setipaddress] is the host with every wildcard replaced by the
    digit 0 or 1 and every other byte kept: it has the same length and
    no wildcard is left in it. *)
Theorem formatted_host_replaces_wildcards (host : string) :
  source_shape host ->
  let formatted := fst (format_loop host 0 32) in
  Forall2 formats (list_ascii_of_string host) (list_ascii_of_string formatted) /\
  String.length formatted = String.length host /\
  strchr formatted "%" = false.
Proof.
  intros (Hdots & _) formatted.
  pose proof (format_loop_formats host 0 32 ltac:(lia)) as H. fold formatted in H.
  split; [exact H|].
  revert H. generalize formatted. clear. intros formatted.
  revert formatted. induction host as [|c rest IH]; intros formatted H.
  - destruct formatted; [split; reflexivity|]. simpl in H. inversion H.
  - destruct formatted as [|d out]; simpl in H; [inversion H|].
    apply Forall2_cons_iff in H as [Hcd Hrest].
    destruct (IH out Hrest) as [Hl Hn]. cbn [String.length strchr].
    rewrite Hl. split; [reflexivity|].
    destruct (Ascii.eqb_spec d "%") as [E | E]; [|exact Hn].
    destruct Hcd as [[Hc Hd] | [_ [Hd | Hd]]]; congruence.
Qed.

(** *** Routing: what stays as it is, and the totals *)

Section RoutingMore.
Context {re : Pcre2} {core : MaxScaleCore}.

(** One call changes the instance in its totals only, the session in
    its counters and its error flag only, and the buffer in its hints
    only; and it changes counters and totals together. *)
Lemma routeQuery_frame (inst : RegexHintInst) (sess : RegexHintSess) (q : Buffer) :
  let r := routeQuery inst sess q in
  (m_mapping (rq_instance r) = m_mapping inst /\
   m_user (rq_instance r) = m_user inst /\
   m_source (rq_instance r) = m_source inst /\
   m_ovector_size (rq_instance r) = m_ovector_size inst) /\
  (active (rq_session r) = active sess /\
   down (rq_session r) = down sess /\
   match_data (rq_session r) = match_data sess) /\
  data (rq_queue r) = data q /\
  exists d u,
    (d = 0 \/ d = 1) /\ (u = 0 \/ u = 1) /\
    d + u = (if negb (active sess =? 0) && is_statement q then 1 else 0) /\
    n_diverted (rq_session r) =
      (if d =? 0 then n_diverted sess else wrap_int (n_diverted sess + 1)) /\
    n_undiverted (rq_session r) =
      (if u =? 0 then n_undiverted sess else wrap_int (n_undiverted sess + 1)) /\
    m_total_diverted (rq_instance r) =
      (if d =? 0 then m_total_diverted inst else wrap_uint (m_total_diverted inst + 1)) /\
    m_total_undiverted (rq_instance r) =
      (if u =? 0 then m_total_undiverted inst
       else wrap_uint (m_total_undiverted inst + 1)).
Proof.
  cbv zeta. unfold routeQuery, is_statement.
  destruct (modutil_is_SQL q); cbn [andb];
    [destruct (negb (active sess =? 0)); cbn [andb];
     [destruct (modutil_extract_SQL q) as [sql|];
      [destruct (find_servers (m_mapping inst) sess [] sql) as [result servers];
       destruct (0 <=? result);
       [|destruct (result =? PCRE2_ERROR_NOMATCH)]|]|]|];
    cbn [rq_instance rq_session rq_queue m_mapping m_user m_source m_ovector_size
         active down match_data data n_diverted n_undiverted
         m_total_diverted m_total_undiverted diverted undiverted];
    (split; [auto|]); (split; [auto|]); (split; [reflexivity|]).
  1: exists 1, 0.
  2,3: exists 0, 1.
  4,5,6: exists 0, 0.
  all: cbn [Z.eqb]; repeat split; auto.
  all: try (destruct (negb (active sess =? 0)); reflexivity).
Qed.

(** X9.  Routing never touches the configuration: after any number of
    [routeQuery] calls the instance has the mapping, user, source and
    ovector size it had, the session has the [active] flag, downstream
    and match data it had, and each buffer goes downstream with the
    contents it came with. *)
Theorem routing_keeps_configuration (qs : list Buffer) (inst : RegexHintInst)
    (sess : RegexHintSess) :
  let r := route_all inst sess qs in
  m_mapping (fst r) = m_mapping inst /\
  m_user (fst r) = m_user inst /\
  m_source (fst r) = m_source inst /\
  m_ovector_size (fst r) = m_ovector_size inst /\
  active (snd r) = active sess /\
  down (snd r) = down sess /\
  match_data (snd r) = match_data sess /\
  (forall q, data (rq_queue (routeQuery inst sess q)) = data q).
Proof.
  cbv zeta. split; [|split; [|split; [|split; [|split; [|split; [|split]]]]]].
  8: { intros q. apply (routeQuery_frame inst sess q). }
  all: revert inst sess; induction qs as [|q rest IH]; intros inst sess;
    [reflexivity|]; cbn [route_all]; rewrite IH;
    destruct (routeQuery_frame inst sess q) as ((? & ? & ? & ?) & (? & ? & ?) & _);
    assumption.
Qed.

Lemma wrap_uint_small (z : Z) : 0 <= z < 4294967296 -> wrap_uint z = z.
Proof. intros H. unfold wrap_uint. apply Z.mod_small. exact H. Qed.

(** Over a run within the range of the counters, the session counters
    and the instance totals grow by the same amounts. *)
Lemma route_all_deltas (qs : list Buffer) (inst : RegexHintInst) (sess : RegexHintSess) :
  0 <= n_diverted sess -> 0 <= n_undiverted sess ->
  0 <= m_total_diverted inst -> 0 <= m_total_undiverted inst ->
  n_diverted sess + n_undiverted sess + statements qs <= INT_MAX ->
  m_total_diverted inst + m_total_undiverted inst + statements qs < 4294967296 ->
  exists d u,
    0 <= d /\ 0 <= u /\ d + u <= statements qs /\
    n_diverted (snd (route_all inst sess qs)) = n_diverted sess + d /\
    n_undiverted (snd (route_all inst sess qs)) = n_undiverted sess + u /\
    m_total_diverted (fst (route_all inst sess qs)) = m_total_diverted inst + d /\
    m_total_undiverted (fst (route_all inst sess qs)) = m_total_undiverted inst + u.
Proof.
  revert inst sess. unfold statements, INT_MAX.
  induction qs as [|q rest IH]; intros inst sess Hd Hu Htd Htu Hs Ht.
  - exists 0, 0. simpl. repeat split; lia.
  - cbn [route_all List.filter] in *.
    destruct (routeQuery_frame inst sess q)
      as (_ & _ & _ & d & u & Hd01 & Hu01 & Hsum & Hnd & Hnu & Hmd & Hmu).
    assert (Hle : d + u <= Z.of_nat (length (if is_statement q
                                             then q :: List.filter is_statement rest
                                             else List.filter is_statement rest))
                           - Z.of_nat (length (List.filter is_statement rest))).
    { destruct (is_statement q); cbn [length].
      - destruct (negb (active sess =? 0)); simpl in Hsum; lia.
      - rewrite andb_false_r in Hsum. lia. }
    assert (Hnd' : n_diverted (rq_session (routeQuery inst sess q)) = n_diverted sess + d)
      by (rewrite Hnd; destruct Hd01 as [-> | ->]; cbn [Z.eqb];
          [lia | apply wrap_int_small; unfold INT_MAX; lia]).
    assert (Hnu' : n_undiverted (rq_session (routeQuery inst sess q)) = n_undiverted sess + u)
      by (rewrite Hnu; destruct Hu01 as [-> | ->]; cbn [Z.eqb];
          [lia | apply wrap_int_small; unfold INT_MAX; lia]).
    assert (Hmd' : m_total_diverted (rq_instance (routeQuery inst sess q))
                   = m_total_diverted inst + d)
      by (rewrite Hmd; destruct Hd01 as [-> | ->]; cbn [Z.eqb];
          [lia | apply wrap_uint_small; lia]).
    assert (Hmu' : m_total_undiverted (rq_instance (routeQuery inst sess q))
                   = m_total_undiverted inst + u)
      by (rewrite Hmu; destruct Hu01 as [-> | ->]; cbn [Z.eqb];
          [lia | apply wrap_uint_small; lia]).
    clear Hnd Hnu Hmd Hmu.
    destruct (IH (rq_instance (routeQuery inst sess q))
                 (rq_session (routeQuery inst sess q)))
      as (d' & u' & Hd' & Hu' & Hsum' & H1 & H2 & H3 & H4); try lia.
    exists (d + d'), (u + u'). rewrite H1, H2, H3, H4, Hnd', Hnu', Hmd', Hmu'.
    repeat split; lia.
Qed.

(** X11.  In a run of [routeQuery] calls of one session that stays
    within the range of the counters, the instance-wide totals grow by
    exactly what the session's own counters grow by. *)
Theorem totals_follow_session_counters (qs : list Buffer) (inst : RegexHintInst)
    (sess : RegexHintSess) :
  0 <= n_diverted sess -> 0 <= n_undiverted sess ->
  0 <= m_total_diverted inst -> 0 <= m_total_undiverted inst ->
  n_diverted sess + n_undiverted sess + statements qs <= INT_MAX ->
  m_total_diverted inst + m_total_undiverted inst + statements qs < 4294967296 ->
  let r := route_all inst sess qs in
  m_total_diverted (fst r) - m_total_diverted inst
    = n_diverted (snd r) - n_diverted sess /\
  m_total_undiverted (fst r) - m_total_undiverted inst
    = n_undiverted (snd r) - n_undiverted sess.
Proof.
  intros Hd Hu Htd Htu Hs Ht r. subst r.
  destruct (route_all_deltas qs inst sess Hd Hu Htd Htu Hs Ht)
    as (d & u & _ & _ & _ & H1 & H2 & H3 & H4).
  rewrite H1, H2, H3, H4. lia.
Qed.

(** The error flag after one call. *)
Lemma routeQuery_error_flag (inst : RegexHintInst) (sess : RegexHintSess) (q : Buffer) :
  regex_error_printed (rq_session (routeQuery inst sess q)) = true <->
  regex_error_printed sess = true \/
  (active sess <> 0 /\ modutil_is_SQL q = true /\
   exists sql e,
     modutil_extract_SQL q = Some sql /\
     first_deciding (m_mapping inst) sess sql = Some e /\
     entry_matches sess sql e = false).
Proof.
  destruct (Z.eq_dec (active sess) 0) as [Ha | Ha].
  { rewrite routeQuery_other by (left; exact Ha). cbn [rq_session].
    split; [auto | intros [H | (H & _)]; [exact H | contradiction]]. }
  destruct (modutil_is_SQL q) eqn:Hsql.
  2:{ rewrite routeQuery_other by (right; unfold is_statement; rewrite Hsql; reflexivity).
      cbn [rq_session]. split; [auto | intros [H | (_ & H & _)]; [exact H | discriminate]]. }
  destruct (modutil_extract_SQL q) as [sql|] eqn:Hex.
  2:{ rewrite routeQuery_other
        by (right; unfold is_statement; rewrite Hsql, Hex; reflexivity).
      cbn [rq_session].
      split; [auto | intros [H | (_ & _ & sql & e & H & _)]; [exact H | discriminate]]. }
  rewrite (routeQuery_statement inst sess q sql Ha Hsql Hex). cbv zeta.
  rewrite find_servers_spec.
  destruct (first_deciding (m_mapping inst) sess sql) as [e|] eqn:Hfd.
  - cbv zeta. pose proof (find_some _ _ Hfd) as [_ Hdec].
    unfold entry_decides in Hdec. apply negb_true_iff in Hdec.
    destruct (0 <=? pcre2_match (m_regex e) sql (match_data sess)) eqn:Hm;
      cbn [fst]; rewrite Hm; cbn [rq_session regex_error_printed].
    + split; [auto|]. intros [H | (_ & _ & sql' & e' & Hs' & He' & Hno)]; [exact H|].
      injection Hs' as <-. rewrite Hfd in He'. injection He' as <-.
      unfold entry_matches in Hno. congruence.
    + rewrite Hdec. split; [|reflexivity].
      intros _. right. split; [exact Ha|]. split; [reflexivity|].
      exists sql, e. repeat split; auto.
  - cbn [fst]. change (0 <=? PCRE2_ERROR_NOMATCH) with false.
    cbn [rq_session regex_error_printed]. rewrite Z.eqb_refl.
    split; [auto|]. intros [H | (_ & _ & sql' & e' & Hs' & He' & _)]; [exact H|].
    injection Hs' as <-. rewrite Hfd in He'. discriminate.
Qed.

(** X10.  The session's [regex_error_printed] flag, which keeps a regex
    error from being reported twice, is never cleared by routing; and
    when a run of calls sets it, one of the buffers of the run was a
    statement for which the search ended at an entry whose regex failed
    with a matching error. *)
Theorem error_flag_is_set_by_errors_only (qs : list Buffer) (inst : RegexHintInst)
    (sess : RegexHintSess) :
  (regex_error_printed sess = true ->
   regex_error_printed (snd (route_all inst sess qs)) = true) /\
  (regex_error_printed sess = false ->
   regex_error_printed (snd (route_all inst sess qs)) = true ->
   exists q sql e,
     In q qs /\ active sess <> 0 /\ modutil_is_SQL q = true /\
     modutil_extract_SQL q = Some sql /\
     first_deciding (m_mapping inst) sess sql = Some e /\
     entry_matches sess sql e = false).
Proof.
  split.
  - revert inst sess. induction qs as [|q rest IH]; intros inst sess H; [exact H|].
    cbn [route_all]. apply IH. apply routeQuery_error_flag. left. exact H.
  - revert inst sess. induction qs as [|q rest IH]; intros inst sess Hoff Hon.
    + simpl in Hon. congruence.
    + cbn [route_all] in Hon.
      destruct (regex_error_printed (rq_session (routeQuery inst sess q))) eqn:Hnow.
      * apply routeQuery_error_flag in Hnow as [H | (Ha & Hsql & sql & e & Hex & Hfd & Hno)];
          [congruence|].
        exists q, sql, e. repeat split; auto. left. reflexivity.
      * destruct (IH _ _ Hnow Hon) as (q' & sql & e & Hin & Ha & Hsql & Hex & Hfd & Hno).
        destruct (routeQuery_frame inst sess q) as ((Hmap & _) & (Hact & _ & Hmd) & _).
        exists q', sql, e. split; [right; exact Hin|].
        rewrite Hact in Ha. split; [exact Ha|]. split; [exact Hsql|].
        split; [exact Hex|].
        unfold first_deciding, entry_decides, entry_matches in *.
        rewrite Hmap, Hmd in Hfd. rewrite Hmd in Hno. split; assumption.
Qed.

End RoutingMore.

(** *** Creation, destruction and diagnostics *)

Section Lifecycle.
Context {re : Pcre2} {core : MaxScaleCore}.

Lemma loop_unconfigured (pcre_ops : Z) (params : gmap string string)
    (pairs : list (string * string)) (st : MappingLoop) :
  forallb (fun names => negb (configured params names)) pairs = true ->
  fold_left (mapping_loop_body pcre_ops params) pairs st = st.
Proof.
  revert st. induction pairs as [|names rest IH]; intros st H; [reflexivity|].
  simpl in H. apply andb_prop in H as [H1 H2]. apply negb_true_iff in H1.
  simpl. rewrite (body_unconfigured pcre_ops params st names H1). apply IH. exact H2.
Qed.

(** Without an error nothing is freed, and what is compiled is what the
    entries appended to the mapping hold. *)
Lemma loop_clean (pcre_ops : Z) (params : gmap string string)
    (pairs : list (string * string)) (st : MappingLoop) :
  ml_error (fold_left (mapping_loop_body pcre_ops params) pairs st) = false ->
  exists entries,
    ml_mapping (fold_left (mapping_loop_body pcre_ops params) pairs st)
      = ml_mapping st ++ entries /\
    ml_compiled (fold_left (mapping_loop_body pcre_ops params) pairs st)
      = ml_compiled st ++ map m_regex entries /\
    ml_freed (fold_left (mapping_loop_body pcre_ops params) pairs st) = ml_freed st.
Proof.
  revert st. induction pairs as [|names rest IH]; intros st Herr.
  - exists []. simpl. rewrite !app_nil_r. auto.
  - simpl in *.
    pose proof (loop_error pcre_ops params rest
                  (mapping_loop_body pcre_ops params st names)) as He.
    rewrite Herr in He. symmetry in He. apply orb_false_iff in He as [He _].
    destruct (IH _ Herr) as (entries & Hm & Hc & Hf).
    destruct (configured params names) eqn:Hcfg.
    + rewrite (body_configured pcre_ops params st names Hcfg) in *.
      destruct (pcre2_compile _ _) as [regex|]; [|discriminate].
      destruct (strtok_all _ _) as [|n ns]; [discriminate|].
      cbn [ml_mapping ml_compiled ml_freed] in Hm, Hc, Hf.
      eexists (_ :: entries). rewrite Hm, Hc, Hf, <- !app_assoc. auto.
    + rewrite (body_unconfigured pcre_ops params st names Hcfg) in *.
      exists entries. auto.
Qed.

Lemma set_source_address_returns (host : string) :
  exists src, set_source_address host = Some src.
Proof.
  unfold set_source_address.
  destruct (negb (validate_ip_address host)); [eauto|].
  destruct (negb (strchr host "%")); [eauto|].
  destruct (setipaddress _); [destruct (negb _)|]; eauto.
Qed.

(** [createInstance] returns NULL exactly when the mapping it formed is
    empty; otherwise the instance is built from the mapping and from the
    'user', 'source' and 'ovector_size' parameters. *)
Lemma createInstance_unfold (names_match names_server : StringArray)
    (params : gmap string string) :
  let st := form_regex_server_mapping []
              (config_get_enum params "options" option_values) params
              names_match names_server in
  createInstance names_match names_server params =
  {| cr_instance :=
       match ml_mapping st with
       | [] => None
       | _ :: _ =>
           Some {| m_user := config_get_string params "user";
                   m_source :=
                     if strlen (config_get_string params "source") =? 0 then None
                     else set_source_address (config_get_string params "source");
                   m_mapping := ml_mapping st;
                   m_ovector_size := config_get_integer params "ovector_size";
                   m_total_diverted := 0;
                   m_total_undiverted := 0 |}
       end;
     cr_compiled := ml_compiled st;
     cr_freed := ml_freed st |}.
Proof.
  intros st. unfold createInstance. fold st.
  destruct (set_source_address_returns (config_get_string params "source")) as [src Hsrc].
  rewrite Hsrc.
  destruct (strlen (config_get_string params "source") =? 0); cbn [negb fst snd];
    destruct (ml_mapping st); reflexivity.
Qed.

(** The state [form_regex_server_mapping] returns for an empty mapping:
    on an error everything compiled has been freed and the mapping is
    empty, otherwise nothing has been freed and the mapping holds every
    compiled regex. *)
Lemma formed_mapping_heap (names_match names_server : StringArray) (pcre_ops : Z)
    (params : gmap string string) :
  let st := form_regex_server_mapping [] pcre_ops params names_match names_server in
  (ml_mapping st = [] /\ Permutation (ml_compiled st) (ml_freed st)) \/
  (ml_error st = false /\ ml_freed st = [] /\
   ml_compiled st = map m_regex (ml_mapping st)).
Proof.
  intros st. subst st. unfold form_regex_server_mapping.
  set (init := {| ml_mapping := []; ml_error := false;
                  ml_compiled := []; ml_freed := [] |}).
  set (pairs := combine names_match names_server).
  destruct (ml_error (fold_left (mapping_loop_body pcre_ops params) pairs init)) eqn:Herr.
  - left. split; [reflexivity|]. cbn [ml_compiled ml_freed].
    apply (loop_heap pcre_ops params pairs init). apply Permutation_refl.
  - right. destruct (loop_clean pcre_ops params pairs init Herr) as (entries & Hm & Hc & Hf).
    rewrite Hm, Hc, Hf. auto.
Qed.

(** X12.  When no match/server pair is configured (for every pair of
    names one of the two parameters is missing or empty),
    [createInstance] returns NULL, and no regex has been compiled. *)
Theorem createInstance_without_pairs (names_match names_server : StringArray)
    (params : gmap string string) :
  forallb (fun names => negb (configured params names))
    (combine names_match names_server) = true ->
  let c := createInstance names_match names_server params in
  cr_instance c = None /\ cr_compiled c = [] /\ cr_freed c = [].
Proof.
  intros H c. subst c. rewrite createInstance_unfold. cbv zeta.
  unfold form_regex_server_mapping. rewrite loop_unconfigured by exact H.
  cbn. auto.
Qed.

(** X13.  An instance that [createInstance] returns owns every regex
    that was compiled: none has been freed, the compiled regexes are
    those of its mapping, in order, and the mapping is not empty.  Its
    totals start at zero and its user is the 'user' parameter. *)
Theorem created_instance_owns_regexes (names_match names_server : StringArray)
    (params : gmap string string) (inst : RegexHintInst) :
  let c := createInstance names_match names_server params in
  cr_instance c = Some inst ->
  cr_freed c = [] /\
  cr_compiled c = map m_regex (m_mapping inst) /\
  m_mapping inst <> [] /\
  m_total_diverted inst = 0 /\ m_total_undiverted inst = 0 /\
  m_user inst = config_get_string params "user".
Proof.
  intros c. subst c. rewrite createInstance_unfold. cbv zeta.
  cbn [cr_instance cr_freed cr_compiled].
  destruct (formed_mapping_heap names_match names_server
              (config_get_enum params "options" option_values) params)
    as [[Hempty _] | (_ & Hf & Hc)].
  - rewrite Hempty. discriminate.
  - destruct (ml_mapping _) as [|e rest] eqn:Hm; [discriminate|].
    intros H. injection H as <-.
    cbn [m_mapping m_total_diverted m_total_undiverted m_user].
    repeat split; auto; discriminate.
Qed.

(** X14.  Over the life of a filter every compiled regex is freed
    exactly once: the regexes [createInstance] has freed itself, followed
    by those the destructor frees if an instance was returned, are a
    rearrangement of the regexes that were compiled. *)
Theorem regexes_freed_exactly_once (names_match names_server : StringArray)
    (params : gmap string string) :
  let c := createInstance names_match names_server params in
  Permutation (cr_compiled c)
    (cr_freed c ++
     match cr_instance c with
     | Some inst => freed_regexes (free_instance inst)
     | None => []
     end).
Proof.
  intros c. subst c. rewrite createInstance_unfold. cbv zeta.
  cbn [cr_instance cr_freed cr_compiled].
  destruct (formed_mapping_heap names_match names_server
              (config_get_enum params "options" option_values) params)
    as [[Hempty Hperm] | (_ & Hf & Hc)].
  - rewrite Hempty, app_nil_r. exact Hperm.
  - rewrite Hf, Hc. destruct (ml_mapping _); reflexivity.
Qed.

(** X15.  A malformed 'source' parameter does not make [createInstance]
    fail: the instance is created with a source whose address is NULL,
    and then, with no user configured, every new session is active
    wherever the client connects from. *)
Theorem malformed_source_admits_every_client (names_match names_server : StringArray)
    (params : gmap string string) (inst : RegexHintInst) :
  let c := createInstance names_match names_server params in
  config_get_string params "source" <> "" ->
  ~ source_shape (config_get_string params "source") ->
  cr_instance c = Some inst ->
  (exists src, m_source inst = Some src /\ address src = None) /\
  (config_get_string params "user" = "" ->
   forall session, active (newSession inst session) = 1).
Proof.
  intros c Hne Hbad. subst c. rewrite createInstance_unfold. cbv zeta.
  cbn [cr_instance]. destruct (ml_mapping _) as [|e rest]; [discriminate|].
  intros H. injection H as <-.
  assert (Hlen : (strlen (config_get_string params "source") =? 0) = false).
  { destruct (config_get_string params "source"); [congruence|reflexivity]. }
  assert (Hsrc : set_source_address (config_get_string params "source")
                 = Some {| address := None; ipv4 := 0; netmask := 0 |}).
  { unfold set_source_address.
    destruct (validate_ip_address _) eqn:Ev; [|reflexivity].
    apply validate_ip_address_spec in Ev. contradiction. }
  cbn [m_source m_user]. rewrite Hlen, Hsrc.
  split; [eexists; split; reflexivity|].
  intros Hu session. unfold newSession. cbn [active m_source m_user address].
  rewrite Hu. reflexivity.
Qed.

Lemma entries_text_defined (mapping : MappingArray) :
  Forall (fun e => m_servers e <> []) mapping ->
  exists texts, entries_text mapping = Some texts.
Proof.
  induction 1 as [|e rest He _ [texts IH]]; [exists []; reflexivity|].
  simpl. unfold entry_text. destruct (m_servers e); [congruence|].
  rewrite IH. eauto.
Qed.

(** X16.  [diagnostic] is safe on the instances [createInstance]
    returns, as far as the mapping goes: every entry has a first server
    to print.  It has an output exactly when the instance has no source
    or a source with an address; with a malformed 'source' it hands a
    NULL string to the "%s" of [dcb_printf]. *)
Theorem diagnostic_of_created_instance (names_match names_server : StringArray)
    (params : gmap string string) (inst : RegexHintInst)
    (my_session : option RegexHintSess) :
  cr_instance (createInstance names_match names_server params) = Some inst ->
  (exists texts, entries_text (m_mapping inst) = Some texts) /\
  (diagnostic inst my_session <> None <->
   forall src, m_source inst = Some src -> address src <> None).
Proof.
  rewrite createInstance_unfold. cbv zeta. cbn [cr_instance].
  pose proof (form_regex_server_mapping_spec
                (config_get_enum params "options" option_values) params
                names_match names_server) as [Hbad Hgood].
  cbv zeta in Hbad, Hgood.
  destruct (ml_mapping _) as [|e rest] eqn:Hm; [discriminate|].
  intros H. injection H as <-. cbn [m_mapping].
  assert (Hall : Forall (fun e => m_servers e <> []) (e :: rest)).
  { destruct (existsb _ _) eqn:Hfail.
    - destruct (Hbad eq_refl) as [Hempty _]. congruence.
    - specialize (Hgood eq_refl).
      revert Hgood. generalize (e :: rest).
      generalize (List.filter (configured params) (combine names_match names_server)).
      induction 1 as [|names e' l l' (_ & _ & _ & Hs) _ IH]; constructor; assumption. }
  destruct (entries_text_defined _ Hall) as [texts Ht].
  split; [eauto|].
  unfold diagnostic. cbn [m_mapping m_source]. rewrite Ht.
  destruct (if strlen (config_get_string params "source") =? 0 then None
            else set_source_address (config_get_string params "source")) as [src|].
  - destruct (address src) as [a|] eqn:Ha.
    + split; [|discriminate].
      intros _ src' Hs'. injection Hs' as Hs'. subst src'. rewrite Ha. discriminate.
    + split; [congruence|]. intros Hs. exfalso. exact (Hs _ eq_refl Ha).
  - split; [intros _ src' Hs'; discriminate | discriminate].
Qed.

End Lifecycle.

(** *** Parameter names *)

Lemma generate_param_names_nonpos (pairs : Z) :
  pairs <= 0 -> generate_param_names pairs = ([], []).
Proof.
  intros H. unfold generate_param_names.
  destruct (0 <? pairs) eqn:E; [apply Z.ltb_lt in E; lia|].
  replace (Z.to_nat pairs) with 0%nat by lia. reflexivity.
Qed.

(** Up to 100 pairs: checked for each number of pairs in turn. *)
Lemma names_checked :
  forallb
    (fun n =>
       let g := generate_param_names (Z.of_nat n) in
       bool_decide (NoDup (base_parameters
                           ++ flat_map (fun p => [fst p; snd p])
                                (combine (fst g) (snd g))))
       && forallb (fun name => Nat.eqb (String.length name) 7) (tl (fst g))
       && forallb (fun name => Nat.eqb (String.length name) 8) (tl (snd g)))
    (seq 0 101) = true.
Proof. vm_compute. reflexivity. Qed.

Lemma names_checked_at (pairs : Z) :
  pairs <= 100 ->
  let g := generate_param_names pairs in
  NoDup (base_parameters
         ++ flat_map (fun p => [fst p; snd p]) (combine (fst g) (snd g))) /\
  Forall (fun name => String.length name = 7%nat) (tl (fst g)) /\
  Forall (fun name => String.length name = 8%nat) (tl (snd g)).
Proof.
  intros Hle.
  assert (Hn : exists n, (n <= 100)%nat /\
                         generate_param_names pairs = generate_param_names (Z.of_nat n)).
  { destruct (Z.le_gt_cases pairs 0) as [H0 | H0].
    - exists 0%nat. split; [lia|]. rewrite generate_param_names_nonpos by exact H0.
      reflexivity.
    - exists (Z.to_nat pairs). split; [lia|]. rewrite Z2Nat.id by lia. reflexivity. }
  destruct Hn as (n & Hn & ->).
  pose proof (proj1 (forallb_forall _ _) names_checked n) as H.
  cbv beta zeta in H. specialize (H ltac:(apply in_seq; lia)).
  apply andb_prop in H as [H H3]. apply andb_prop in H as [H1 H2].
  cbv zeta. split; [|split].
  - apply bool_decide_eq_true in H1. exact H1.
  - apply List.Forall_forall. intros name Hin.
    apply Nat.eqb_eq. exact (proj1 (forallb_forall _ _) H2 name Hin).
  - apply List.Forall_forall. intros name Hin.
    apply Nat.eqb_eq. exact (proj1 (forallb_forall _ _) H3 name Hin).
Qed.

(** Two lists of the same length written pairwise hold what the two
    lists hold. *)
Lemma interleaved_permutation (ms ss : list string) :
  length ms = length ss ->
  Permutation (flat_map (fun p => [fst p; snd p]) (combine ms ss)) (ms ++ ss).
Proof.
  revert ss. induction ms as [|m ms IH]; intros [|s ss] Hlen; try discriminate.
  - constructor.
  - simpl. constructor. etransitivity; [|apply Permutation_middle].
    constructor. apply IH. simpl in Hlen. lia.
Qed.

Lemma generate_param_names_lengths (pairs : Z) :
  length (fst (generate_param_names pairs)) = Z.to_nat pairs /\
  length (snd (generate_param_names pairs)) = Z.to_nat pairs.
Proof.
  unfold generate_param_names. cbn [fst snd].
  rewrite !length_app, !length_map, !length_seq.
  destruct (0 <? pairs) eqn:E; cbn [length].
  - apply Z.ltb_lt in E. lia.
  - apply Z.ltb_ge in E. lia.
Qed.

(** X17.  [generate_param_names] appends as many match names as server
    names, one of each per pair.  Up to 100 pairs every name after the
    first fills its buffer exactly (7 and 8 bytes, the lengths the
    source asserts), and all the names are different. *)
Theorem generated_names_pair_up (pairs : Z) :
  let g := generate_param_names pairs in
  length (fst g) = Z.to_nat pairs /\
  length (snd g) = Z.to_nat pairs /\
  (pairs <= 100 ->
   NoDup (fst g ++ snd g) /\
   Forall (fun name => String.length name = 7%nat) (tl (fst g)) /\
   Forall (fun name => String.length name = 8%nat) (tl (snd g))).
Proof.
  cbv zeta.
  destruct (generate_param_names_lengths pairs) as [Hl1 Hl2].
  split; [exact Hl1|]. split; [exact Hl2|].
  intros Hle. destruct (names_checked_at pairs Hle) as (Hnd & H7 & H8).
  split; [|split; assumption].
  apply NoDup_app in Hnd as (_ & _ & Hnd).
  rewrite interleaved_permutation in Hnd by congruence. exact Hnd.
Qed.

(** X18.  The parameter table [MXS_CREATE_MODULE] builds never holds a
    name twice, holds at most 204 names, and, when the constant
    MXS_MODULE_PARAM_MAX is at least the four parameters declared
    first, at most MXS_MODULE_PARAM_MAX names. *)
Theorem module_parameters_fit (MXS_MODULE_PARAM_MAX : Z) :
  NoDup (module_parameters MXS_MODULE_PARAM_MAX) /\
  (length (module_parameters MXS_MODULE_PARAM_MAX) <= 204)%nat /\
  (4 <= MXS_MODULE_PARAM_MAX ->
   Z.of_nat (length (module_parameters MXS_MODULE_PARAM_MAX)) <= MXS_MODULE_PARAM_MAX).
Proof.
  unfold module_parameters.
  set (pairs := match_server_pairs MXS_MODULE_PARAM_MAX).
  assert (Hle : pairs <= 100).
  { subst pairs. unfold match_server_pairs.
    destruct (100 <? _) eqn:E; [lia | apply Z.ltb_ge in E; exact E]. }
  destruct (names_checked_at pairs Hle) as (Hnd & _).
  destruct (generate_param_names_lengths pairs) as (Hl1 & Hl2).
  split; [exact Hnd|].
  pose proof (interleaved_permutation (fst (generate_param_names pairs))
                (snd (generate_param_names pairs)) ltac:(congruence)) as Hperm.
  rewrite length_app, (Permutation_length Hperm), length_app, Hl1, Hl2.
  cbn [length base_parameters]. split; [lia|].
  intros Hmax.
  assert (Hfit : 2 * pairs <= MXS_MODULE_PARAM_MAX - 4).
  { subst pairs. unfold match_server_pairs.
    change (Z.of_nat (length base_parameters)) with 4.
    pose proof (Z.mul_quot_le (MXS_MODULE_PARAM_MAX - 4) 2 ltac:(lia) ltac:(lia)).
    destruct (100 <? Z.quot (MXS_MODULE_PARAM_MAX - 4) 2) eqn:E; [|lia].
    apply Z.ltb_lt in E. lia. }
  lia.
Qed.

(** *** The properties at work *)

Section Witnesses.
Import Demo DemoMore.
#[local] Existing Instance toy_pcre2.
#[local] Existing Instance toy_core.

Lemma add_servers_of_joined_names_witness :
  m_servers (snd (add_servers (entry "select" []) "server2,server3"))
    = ["server2"; "server3"] /\
  fst (add_servers (entry "select" []) "server2,server3") = 2.
Proof.
  apply (add_servers_of_joined_names (entry "select" []) ["server2"; "server3"]).
  - repeat constructor; discriminate.
  - reflexivity.
Defined.

Lemma accepted_netmask_range_witness :
  (exists k, 0 <= k <= 12 /\ netmask subnet_source = 32 - 8 * k) /\
  (netmask subnet_source = 32 <-> strchr "10.0.0.%" "%" = false).
Proof.
  apply (accepted_netmask_range "10.0.0.%" subnet_source).
  - reflexivity.
  - discriminate.
Defined.

Lemma formatted_host_replaces_wildcards_witness :
  fst (format_loop "10.%.0.%" 0 32) = "10.0.0.1" /\
  strchr (fst (format_loop "10.%.0.%" 0 32)) "%" = false.
Proof.
  split; [reflexivity|].
  apply (formatted_host_replaces_wildcards "10.%.0.%").
  repeat split; try discriminate; vm_compute; congruence.
Defined.

Lemma exact_source_admits_equal_remote_witness :
  active (newSession (restricted exact_source) client) = 1 /\
  active (newSession (restricted exact_source)
            {| remote := Some "10.0.0.8"; client_ipv4 := 134217738; user := None |}) = 0.
Proof.
  split.
  - apply (exact_source_admits_equal_remote (restricted exact_source) "10.0.0.7"
             exact_source client "10.0.0.7"); try reflexivity. discriminate.
  - apply (exact_source_admits_equal_remote (restricted exact_source) "10.0.0.7"
             exact_source _ "10.0.0.8"); try reflexivity. discriminate.
Defined.

Lemma wildcard_source_compares_addresses_witness :
  exists a,
    setipaddress "10.0.0.1" = Some a /\
    check_source_host subnet_source "10.0.0.7" 117440522 = 1 /\
    check_source_host subnet_source "10.0.1.7" 117506058 = 0.
Proof.
  destruct (proj2 (@wildcard_source_compares_addresses toy_core "10.0.0.%" subnet_source
                     ltac:(reflexivity) ltac:(discriminate) ltac:(reflexivity))
              ltac:(reflexivity))
    as (a & Ha & Hcheck).
  exists a. split; [exact Ha|]. rewrite !Hcheck.
  vm_compute in Ha. injection Ha as <-. split; reflexivity.
Defined.

Lemma newSession_active_flag_witness :
  active (newSession
            {| m_user := "admin"; m_source := None; m_mapping := [];
               m_ovector_size := 1; m_total_diverted := 0; m_total_undiverted := 0 |}
            client) = 0.
Proof.
  apply (proj1 (proj2 (newSession_active_flag _ client)) "app");
    [discriminate | reflexivity | discriminate].
Defined.

Lemma totals_follow_session_counters_witness :
  let qs := [query "insert into t values (1)"; ping; query "update t set a = 2"] in
  let r := route_all plain_instance (session_of plain_instance) qs in
  m_total_diverted (fst r) = 1 /\ m_total_undiverted (fst r) = 1 /\
  m_total_diverted (fst r) - 0 = n_diverted (snd r) - 0.
Proof.
  cbv zeta. split; [reflexivity|]. split; [reflexivity|].
  apply (totals_follow_session_counters
           [query "insert into t values (1)"; ping; query "update t set a = 2"]
           plain_instance (session_of plain_instance));
    vm_compute; congruence.
Defined.

Lemma error_flag_is_set_by_errors_only_witness :
  exists q sql e,
    In q [ping; query costly_sql] /\
    active (session_of costly_instance) <> 0 /\ modutil_is_SQL q = true /\
    modutil_extract_SQL q = Some sql /\
    first_deciding (m_mapping costly_instance) (session_of costly_instance) sql = Some e /\
    entry_matches (session_of costly_instance) sql e = false.
Proof.
  apply (proj2 (error_flag_is_set_by_errors_only [ping; query costly_sql]
                  costly_instance (session_of costly_instance)));
    reflexivity.
Defined.

Lemma createInstance_without_pairs_witness :
  cr_instance (createInstance (fst names30) (snd names30)
                 {[ "user" := "app"; "match07" := "select" ]}) = None.
Proof.
  apply (createInstance_without_pairs (fst names30) (snd names30)
           {[ "user" := "app"; "match07" := "select" ]}).
  vm_compute. reflexivity.
Defined.

Lemma created_instance_owns_regexes_witness :
  exists inst,
    cr_instance (createInstance (fst names30) (snd names30) good_params) = Some inst /\
    cr_compiled (createInstance (fst names30) (snd names30) good_params)
      = map m_regex (m_mapping inst) /\
    length (m_mapping inst) = 2%nat.
Proof.
  eexists. split; [vm_compute; reflexivity|]. split; [|reflexivity].
  apply (created_instance_owns_regexes (fst names30) (snd names30) good_params).
  vm_compute. reflexivity.
Defined.

Lemma malformed_source_admits_every_client_witness :
  exists inst,
    cr_instance (createInstance (fst names30) (snd names30) careless_params) = Some inst /\
    active (newSession inst client) = 1.
Proof.
  eexists. split; [vm_compute; reflexivity|].
  refine (proj2 (malformed_source_admits_every_client (fst names30) (snd names30)
                   careless_params _ _ _ _) eq_refl client).
  - vm_compute. discriminate.
  - intros (Hdots & _). vm_compute in Hdots. discriminate.
  - vm_compute. reflexivity.
Defined.

Lemma diagnostic_of_created_instance_witness :
  exists inst,
    cr_instance (createInstance (fst names30) (snd names30) good_params) = Some inst /\
    diagnostic inst None <> None.
Proof.
  eexists. split; [vm_compute; reflexivity|].
  refine (proj2 (proj2 (diagnostic_of_created_instance (fst names30) (snd names30)
                          good_params _ None _)) _).
  - vm_compute. reflexivity.
  - intros src Hsrc. vm_compute in Hsrc. discriminate.
Defined.

Lemma generated_names_pair_up_witness :
  NoDup (fst names30 ++ snd names30) /\
  Forall (fun name => String.length name = 7%nat) (tl (fst names30)) /\
  Forall (fun name => String.length name = 8%nat) (tl (snd names30)).
Proof.
  apply (proj2 (proj2 (generated_names_pair_up 30))). lia.
Defined.

Lemma module_parameters_fit_witness :
  Z.of_nat (length (module_parameters 64)) <= 64.
Proof.
  apply (proj2 (proj2 (module_parameters_fit 64))). lia.
Defined.

End Witnesses.

End NamedServerFilterExtra.

(* ===================================================================== *)
(** ** Further properties of luafilter.c *)
(* ===================================================================== *)

Module LuaFilterExtra.
Import CLib LuaFilter LuaFilterMore LuaFilterFacts.

Section Scripts.
Context {rt : LuaRuntime}.

Lemma with_global_same (inst : LUA_INSTANCE) :
  with_global inst (global_lua_state inst) = inst.
Proof. destruct inst; reflexivity. Qed.


(** X19.  A packet that is neither an SQL statement nor a prepare goes
    downstream as it is, and no script is called for it: the instance
    and the session, Lua states included, are what they were. *)
Theorem other_packets_bypass_scripts (inst : LUA_INSTANCE) (sess : LUA_SESSION)
    (q : GWBUF) :
  modutil_is_SQL q = false ->
  modutil_is_SQL_prepare q = false ->
  routeQuery inst sess q =
  Some {| out_instance := inst; out_session := sess;
          out_events := [RouteDown q];
          out_rc := match down sess with Some f => Some (f q) | None => None end |}.
Proof.
  intros H1 H2. unfold routeQuery. rewrite H1, H2. cbn.
  rewrite with_global_same. reflexivity.
Qed.

(** Parameters that are all standard ones give no script. *)
Lemma read_params_standard (params : list FILTER_PARAMETER) (g s : option string) :
  Forall (fun p => String.eqb (name p) "global_script" = false /\
                   String.eqb (name p) "session_script" = false /\
                   filter_standard_parameter (name p) = true) params ->
  read_params params g s = Some (g, s).
Proof.
  induction 1 as [|p rest (H1 & H2 & H3) _ IH]; [reflexivity|].
  simpl. rewrite H1, H2, H3. exact IH.
Qed.

(** X20.  A filter configured without scripts is transparent: the
    instance is created, a session is opened, no Lua code runs, and
    every buffer routed through the session goes downstream as it is. *)
Theorem filter_without_scripts_is_transparent (params : list FILTER_PARAMETER)
    (write route : GWBUF -> Z) :
  Forall (fun p => String.eqb (name p) "global_script" = false /\
                   String.eqb (name p) "session_script" = false /\
                   filter_standard_parameter (name p) = true) params ->
  exists inst sess,
    createInstance params = (Some inst, []) /\
    newSession inst write = (inst, Some sess, []) /\
    forall q,
      exists out,
        routeQuery inst (setDownstream sess route) q = Some out /\
        out_events out = [RouteDown q] /\
        out_rc out = Some (route q).
Proof.
  intros Hstd. unfold createInstance. rewrite (read_params_standard _ _ _ Hstd).
  eexists. eexists. split; [reflexivity|]. split; [reflexivity|].
  intros q. unfold routeQuery.
  cbn [newSession setDownstream lua_state global_lua_state down fst snd].
  destruct (modutil_is_SQL q || modutil_is_SQL_prepare q);
    [destruct (modutil_get_SQL q)|];
    eexists; (split; [reflexivity|]); split; reflexivity.
Qed.

(** X21.  When the session script's routeQuery fails (or is not a
    function), and there is no global script, the statement is not held
    back: the error is logged, the stack of the session's Lua state is
    emptied, and the statement goes downstream as it is. *)
Theorem failing_script_lets_query_through (inst : LUA_INSTANCE) (sess : LUA_SESSION)
    (q : GWBUF) (fq : string) (L : lua_State) (env' : lua_Env) (err : Value) :
  modutil_is_SQL q || modutil_is_SQL_prepare q = true ->
  modutil_get_SQL q = Some fq ->
  lua_state sess = Some L ->
  lua_apply (env L) (Some q) (lua_global (env L) "routeQuery") [LString fq]
    = (env', inl err) ->
  global_lua_state inst = None ->
  exists out,
    routeQuery inst sess q = Some out /\
    out_events out = [Log (value_text err); RouteDown q] /\
    lua_state (out_session out) = Some {| stack := []; env := env' |}.
Proof.
  intros Hsql Hget HL Happ HG.
  unfold routeQuery. rewrite Hsql, Hget, HL, HG.
  rewrite !pcall_routeQuery, Happ.
  eexists. split; [reflexivity|].
  destruct err; split; reflexivity.
Qed.

(** X22.  With no global script, or with nothing left on the stack of
    the global Lua state, the value the session script's routeQuery
    returns decides the routing: false sends the error packet
    "Access denied." to the client and frees the query; a string or a
    number replaces the query by one made of its text; anything else
    (nil, true, a table) routes the query as it is.  The global script
    adds at most a log message. *)
Theorem script_result_decides_routing (inst : LUA_INSTANCE) (sess : LUA_SESSION)
    (q : GWBUF) (fq : string) (L : lua_State) (env' : lua_Env) (rets : list Value) :
  modutil_is_SQL q || modutil_is_SQL_prepare q = true ->
  modutil_get_SQL q = Some fq ->
  lua_state sess = Some L ->
  lua_apply (env L) (Some q) (lua_global (env L) "routeQuery") [LString fq]
    = (env', inr rets) ->
  (forall G, global_lua_state inst = Some G -> stack G = []) ->
  exists out logs,
    routeQuery inst sess q = Some out /\
    Forall is_log logs /\
    out_events out =
    match rets with
    | LBoolean false :: _ =>
        logs ++ [Free q;
                 ClientWrite (modutil_create_mysql_err_msg 1 0 1045 "28000" "Access denied.")]
    | LString s :: _ | LNumber s :: _ =>
        [Free q] ++ logs ++ [RouteDown (modutil_create_query s)]
    | _ => logs ++ [RouteDown q]
    end.
Proof.
  intros Hsql Hget HL Happ Hclean.
  exact (session_result_interpreted inst sess q fq L env' rets Hsql Hget HL Happ Hclean).
Qed.

(** X23.  [routeQuery] never pops what the session script's routeQuery
    returned: after every statement for which the call succeeds, the
    stack of the session's Lua state is one value higher. *)
Theorem result_stays_on_session_stack (inst : LUA_INSTANCE) (sess : LUA_SESSION)
    (q : GWBUF) (fq : string) (L : lua_State) (env' : lua_Env) (rets : list Value)
    (out : Outcome) :
  modutil_is_SQL q || modutil_is_SQL_prepare q = true ->
  modutil_get_SQL q = Some fq ->
  lua_state sess = Some L ->
  lua_apply (env L) (Some q) (lua_global (env L) "routeQuery") [LString fq]
    = (env', inr rets) ->
  routeQuery inst sess q = Some out ->
  exists L',
    lua_state (out_session out) = Some L' /\
    lua_gettop L' = lua_gettop L + 1.
Proof.
  intros Hsql Hget HL Happ. unfold routeQuery. rewrite Hsql, Hget, HL.
  rewrite !pcall_routeQuery, Happ.
  assert (Hgrow : exists L',
            snd (if negb (LUA_OK =? LUA_OK)
                 then log_and_clear
                        {| stack := rev (adjust 1 rets) ++ stack L; env := env' |}
                        {| route := true; forward := q; events := [] |}
                 else interpret_top
                        {| stack := rev (adjust 1 rets) ++ stack L; env := env' |}
                        {| route := true; forward := q; events := [] |}) = L' /\
            lua_gettop L' = lua_gettop L + 1).
  { eexists. split; [reflexivity|].
    assert (Hpush : exists v,
              stack (snd (if negb (LUA_OK =? LUA_OK)
                          then log_and_clear
                                 {| stack := rev (adjust 1 rets) ++ stack L; env := env' |}
                                 {| route := true; forward := q; events := [] |}
                          else interpret_top
                                 {| stack := rev (adjust 1 rets) ++ stack L; env := env' |}
                                 {| route := true; forward := q; events := [] |}))
              = v :: stack L)
      by (destruct rets as [|[| b | t | t | f |] rest]; eexists; reflexivity).
    destruct Hpush as [v Hv]. unfold lua_gettop. rewrite Hv.
    cbn [length]. lia. }
  destruct Hgrow as (L' & HL' & Htop).
  cbn [fst snd] in *. rewrite HL'.
  destruct (global_lua_state inst) as [G|].
  - destruct (lua_pcall (Some q) _ 1 0) as [status G'].
    cbn [fst snd]. intros H. exists L'. split; [|exact Htop].
    destruct (negb (status =? LUA_OK));
      destruct (negb (route _)); injection H as <-; reflexivity.
  - intros H. exists L'. split; [|exact Htop].
    destruct (negb (route _)); injection H as <-; reflexivity.
Qed.


(** The parameter loop stops at a parameter it does not know. *)
Lemma read_params_unknown (params : list FILTER_PARAMETER) (g s : option string) :
  Exists (fun p => String.eqb (name p) "global_script" = false /\
                   String.eqb (name p) "session_script" = false /\
                   filter_standard_parameter (name p) = false) params ->
  read_params params g s = None.
Proof.
  intros H. revert g s. induction H as [p rest (H1 & H2 & H3) | p rest _ IH]; intros g s.
  - simpl. rewrite H1, H2, H3. reflexivity.
  - simpl. destruct (String.eqb (name p) "global_script"); [apply IH|].
    destruct (String.eqb (name p) "session_script"); [apply IH|].
    destruct (filter_standard_parameter (name p)); [apply IH | reflexivity].
Qed.

(** X25.  A parameter that is neither global_script nor session_script
    nor a standard filter parameter makes [createInstance] return NULL,
    wherever it stands in the list and whatever scripts are named. *)
Theorem unknown_parameter_rejected (params : list FILTER_PARAMETER) :
  Exists (fun p => String.eqb (name p) "global_script" = false /\
                   String.eqb (name p) "session_script" = false /\
                   filter_standard_parameter (name p) = false) params ->
  fst (createInstance params) = None.
Proof.
  intros H. unfold createInstance. rewrite (read_params_unknown _ _ _ H). reflexivity.
Qed.

(** X26.  [clientReply] hands the reply upstream exactly as it got it,
    whatever the scripts do, and returns what the upstream returns.  It
    does so whenever the session has a Lua state or the instance has no
    global one; what it logs are messages only. *)
Theorem clientReply_passes_reply_on (inst : LUA_INSTANCE) (sess : LUA_SESSION)
    (q : GWBUF) :
  (forall r, clientReply inst sess q = Some r ->
             re_up r = q /\
             re_rc r = match up sess with Some f => Some (f q) | None => None end /\
             Forall is_log (re_logged r)) /\
  (lua_state sess <> None \/ global_lua_state inst = None ->
   exists r, clientReply inst sess q = Some r).
Proof.
  unfold clientReply, call_entry_point.
  destruct (lua_state sess) as [L|]; destruct (global_lua_state inst) as [G|];
    cbn [fst snd].
  - destruct (lua_pcall None (lua_getglobal L "clientReply") 0 0) as [st L1].
    destruct (lua_pcall None (lua_getglobal G "clientReply") 0 0) as [sg G1].
    cbn [fst snd].
    destruct (negb (st =? LUA_OK)), (negb (sg =? LUA_OK)); cbn [fst snd];
      (split; [intros r H; injection H as <-; repeat split; repeat constructor
              | intros _; eexists; reflexivity]).
  - destruct (lua_pcall None (lua_getglobal L "clientReply") 0 0) as [st L1].
    cbn [fst snd].
    destruct (negb (st =? LUA_OK)); cbn [fst snd];
      (split; [intros r H; injection H as <-; repeat split; repeat constructor
              | intros _; eexists; reflexivity]).
  - destruct (lua_pcall None (lua_getglobal G "clientReply") 0 0) as [sg G1].
    cbn [fst snd].
    destruct (negb (sg =? LUA_OK)).
    + split; [discriminate | intros [H | H]; congruence].
    + split; [intros r H; injection H as <-; repeat split; constructor
             | intros _; eexists; reflexivity].
  - split; [intros r H; injection H as <-; repeat split; constructor
           | intros _; eexists; reflexivity].
Qed.

End Scripts.

(** *** The properties at work *)

Section Witnesses.
Import LuaDemo LuaDemoMore.
#[local] Existing Instance toy_lua.

Lemma other_packets_bypass_scripts_witness :
  out_events <$> @routeQuery toy_lua toy_instance toy_session Other
    = Some [RouteDown Other].
Proof.
  rewrite (@other_packets_bypass_scripts toy_lua toy_instance toy_session Other
             eq_refl eq_refl).
  reflexivity.
Defined.

Lemma filter_without_scripts_is_transparent_witness :
  exists inst sess,
    @createInstance toy_lua no_scripts = (Some inst, []) /\
    @newSession toy_lua inst (fun _ => 1) = (inst, Some sess, []) /\
    forall q,
      exists out,
        @routeQuery toy_lua inst (setDownstream sess (fun _ => 7)) q = Some out /\
        out_events out = [RouteDown q] /\
        out_rc out = Some 7.
Proof.
  apply (@filter_without_scripts_is_transparent toy_lua no_scripts
           (fun _ => 1) (fun _ => 7)).
  repeat constructor.
Defined.

Lemma failing_script_lets_query_through_witness :
  exists out,
    @routeQuery empty_lua empty_instance empty_session (Query "select 1") = Some out /\
    out_events out = [@Log empty_lua (Some "attempt to call a nil value");
                      @RouteDown empty_lua (Query "select 1")] /\
    lua_state (out_session out) = Some (@Build_lua_State empty_lua [] "empty.lua").
Proof.
  apply (@failing_script_lets_query_through empty_lua empty_instance empty_session
           (Query "select 1") "select 1" (@Build_lua_State empty_lua [] "empty.lua")
           "empty.lua" (LString "attempt to call a nil value")); reflexivity.
Defined.

Lemma script_result_decides_routing_witness :
  exists out logs,
    @routeQuery toy_lua toy_instance toy_session (Query "drop table t") = Some out /\
    Forall is_log logs /\
    out_events out =
    logs ++ [Free (Query "drop table t"); ClientWrite (Error "Access denied.")].
Proof.
  apply (@script_result_decides_routing toy_lua toy_instance toy_session
           (Query "drop table t") "drop table t"
           (@Build_lua_State toy_lua [] "session.lua") "session.lua" [LBoolean false]);
    try reflexivity.
  intros G HG. injection HG as <-. reflexivity.
Defined.

Lemma result_stays_on_session_stack_witness :
  exists out L',
    @routeQuery toy_lua session_only toy_session (Query "select 1") = Some out /\
    lua_state (out_session out) = Some L' /\
    lua_gettop L' = 1.
Proof.
  eexists.
  destruct (@result_stays_on_session_stack toy_lua session_only toy_session
              (Query "select 1") "select 1" (@Build_lua_State toy_lua [] "session.lua")
              "session.lua" [] _ eq_refl eq_refl eq_refl eq_refl eq_refl)
    as (L' & HL' & Htop).
  exists L'. split; [reflexivity|]. split; [exact HL' | exact Htop].
Defined.


Lemma unknown_parameter_rejected_witness :
  fst (@createInstance toy_lua
         [ {| name := "global_script"; value := "global.lua" |};
           {| name := "script"; value := "session.lua" |} ]) = None.
Proof.
  apply (@unknown_parameter_rejected toy_lua).
  right. left. repeat split.
Defined.

Lemma clientReply_passes_reply_on_witness :
  exists r,
    @clientReply toy_lua toy_instance toy_session (Query "ok") = Some r /\
    re_up r = Query "ok".
Proof.
  destruct (proj2 (@clientReply_passes_reply_on toy_lua toy_instance toy_session
                     (Query "ok")) ltac:(left; discriminate)) as [r Hr].
  exists r. split; [exact Hr|].
  exact (proj1 (proj1 (@clientReply_passes_reply_on toy_lua toy_instance toy_session
                         (Query "ok")) r Hr)).
Defined.

End Witnesses.

End LuaFilterExtra.
